(** * Season comparison engine of the NBA statistics client

    A shallow embedding of [BallDontLieClient] (src/nba_api/client.py):
    the season aggregator, the growth calculator and the comparison
    orchestrator of [compare_player_seasons], together with
    [get_player_seasons], [get_player], [get_player_stats] and [_request].
    Around it: [search_players] and [_get_cache_path] of the client, the
    handlers of api/endpoints/stats.py and api/endpoints/players.py given
    a client, and the rate limit of main.py.

    Python floats are IEEE 754 binary64 numbers and are modelled by the
    kernel's primitive floats; Python integers are [Z]; dictionaries are
    finite maps; exceptions are values of an error monad.

    What the model takes as given: a str is ASCII text; the body of a
    response has the shape the client reads ([data] is a dictionary for a
    player and a list of dictionaries for stats) while the values of the
    fields of a stat entry are arbitrary JSON; the season of a game object
    is an int; the year of the clock does not change during a call; the
    cache and the network are one data source that answers each call of
    [_request], possibly depending on the calls before it. *)

From Stdlib Require Import ZArith Lia Bool List Ascii String.
From Stdlib Require Import Floats.PrimFloat Floats.SpecFloat Floats.FloatOps.
From stdpp Require Import gmap strings list fin_maps sorting pretty.

Local Open Scope Z_scope.

(** ** Exceptions *)

(** Where a request to the upstream API can fail without an answer of
    status 200. *)
Inductive request_failure :=
  | BadStatus (status : Z)
  | NetworkFailure.

(** What [InvalidParameterError] complains about. *)
Inductive invalid_parameter :=
  | BadPlayerId (player_id : Z)
  | EmptySeasons
  | BadSeason (season : Z).

(** The exception classes of nba_api/exceptions.py the client raises, the
    [RequestException] of the HTTP library, and the built-in exceptions the
    embedded code can meet.  [NBAApiException cause] is
    [raise NBAApiException(...) from cause]: an instance of the base class
    itself, which is none of its subclasses. *)
Inductive exn :=
  | ValueError
  | TypeError
  | OverflowError
  | AttributeError
  | RequestException (why : request_failure)
  | ApiKeyError
  | ApiRateLimitError
  | PlayerNotFoundError (player_id : Z)
  | InvalidParameterError (what : invalid_parameter)
  | NBAApiException (cause : exn).

(** The result of an expression that may raise. *)
Inductive result (A : Type) :=
  | Ok (a : A)
  | Raise (e : exn).
Arguments Ok {A} a.
Arguments Raise {A} e.

Definition rbind {A B} (r : result A) (k : A -> result B) : result B :=
  match r with
  | Ok a => k a
  | Raise e => Raise e
  end.

(** ** Python values and built-ins *)

Module Py.

(** A decoded JSON value. *)
#[warnings="-register-all"]
Inductive pyval :=
  | PNone
  | PBool (b : bool)
  | PInt (z : Z)
  | PFloat (f : float)
  | PStr (s : string)
  | PList (l : list pyval)
  | PDict (d : list (string * pyval)).

(** *** Integers and quotients to binary64 *)

(** The binary64 number nearest to the integer [z] (ties to even), an
    infinity when it is out of range. *)
Definition round_Z (z : Z) : spec_float :=
  binary_normalize prec emax z 0 false.

(** The binary64 number nearest to [n / d] for [0 < d] (ties to even). *)
Definition round_ratio (n d : Z) : spec_float :=
  match n, d with
  | Z0, _ => S754_zero false
  | Zpos p, Zpos q =>
      SFdiv prec emax (S754_finite false p 0) (S754_finite false q 0)
  | Zneg p, Zpos q =>
      SFdiv prec emax (S754_finite true p 0) (S754_finite false q 0)
  | _, _ => S754_nan
  end.

(** An out-of-range conversion to float raises [OverflowError]. *)
Definition finite_or_overflow (x : spec_float) : result float :=
  match x with
  | S754_infinity _ => Raise OverflowError
  | _ => Ok (SF2Prim x)
  end.

(** [float(z)] for an int [z], and the implicit conversion of an int
    operand in mixed arithmetic. *)
Definition float_of_int (z : Z) : result float :=
  finite_or_overflow (round_Z z).

(** [n / d] for ints, [d] positive: true division, correctly rounded. *)
Definition int_truediv (n d : Z) : result float :=
  finite_or_overflow (round_ratio n d).

(** [z + x] for an int [z] and a float [x]. *)
Definition int_add_float (z : Z) (x : float) : result float :=
  rbind (float_of_int z) (fun fz => Ok (fz + x)%float).

(** The float of a small non-negative count (a list length). *)
Definition float_of_count (n : nat) : float :=
  SF2Prim (round_Z (Z.of_nat n)).

(** *** Text to numbers *)

Definition is_digit (c : ascii) : bool :=
  let n := nat_of_ascii c in (48 <=? n)%nat && (n <=? 57)%nat.

Definition digit_value (c : ascii) : Z :=
  Z.of_nat (nat_of_ascii c) - 48.

(** The white space [int] and [float] skip around a number, in the ASCII
    range: TAB to CR, and the space. *)
Definition is_space (c : ascii) : bool :=
  let n := nat_of_ascii c in
  ((9 <=? n)%nat && (n <=? 13)%nat) || (n =? 32)%nat.

Fixpoint lstrip (l : list ascii) : list ascii :=
  match l with
  | c :: r => if is_space c then lstrip r else l
  | [] => []
  end.

(** [s.strip()] on the characters of [s]. *)
Definition strip (l : list ascii) : list ascii :=
  rev (lstrip (rev (lstrip l))).

(** Underscores may only separate digits: [None] when an underscore has no
    digit on one of its sides, otherwise the text without its underscores.
    [prev] tells whether the character before is a digit. *)
Fixpoint drop_underscores (prev : bool) (l : list ascii)
  : option (list ascii) :=
  match l with
  | [] => Some []
  | c :: r =>
      if Ascii.eqb c "_" then
        match r with
        | d :: _ =>
            if prev && is_digit d then drop_underscores false r else None
        | [] => None
        end
      else option_map (cons c) (drop_underscores (is_digit c) r)
  end.

(** The value of a run of decimal digits, most significant first. *)
Definition digits_value (l : list ascii) : Z :=
  fold_left (fun acc c => 10 * acc + digit_value c) l 0.

(** An optional sign: whether it is a minus, and the rest. *)
Definition take_sign (l : list ascii) : bool * list ascii :=
  match l with
  | c :: r =>
      if Ascii.eqb c "-" then (true, r)
      else if Ascii.eqb c "+" then (false, r)
      else (false, l)
  | [] => (false, l)
  end.

(** The most digits [int] accepts in a str: the default of
    [sys.get_int_max_str_digits()]. *)
Definition max_str_digits : nat := 4300.

(** [int(s)] for a str [s]: surrounding white space, an optional sign, and
    decimal digits that single underscores may separate, at most
    [max_str_digits] of them.  Anything else is a [ValueError]. *)
Definition int_of_str (s : string) : result Z :=
  let (neg, body) := take_sign (strip (list_ascii_of_string s)) in
  match drop_underscores false body with
  | Some (c :: r) =>
      if forallb is_digit (c :: r) && (length (c :: r) <=? max_str_digits)%nat
      then Ok (if neg then - digits_value (c :: r) else digits_value (c :: r))
      else Raise ValueError
  | _ => Raise ValueError
  end.

(** The longest prefix of digits, and the rest. *)
Fixpoint span_digits (l : list ascii) : list ascii * list ascii :=
  match l with
  | c :: r =>
      if is_digit c
      then let (ds, rest) := span_digits r in (c :: ds, rest)
      else ([], l)
  | [] => ([], [])
  end.

Definition lower (c : ascii) : ascii :=
  let n := nat_of_ascii c in
  if (65 <=? n)%nat && (n <=? 90)%nat then ascii_of_nat (n + 32) else c.

(** The exponent part of a decimal literal: nothing, or [e], an optional
    sign and at least one digit. *)
Definition exponent_of (l : list ascii) : option Z :=
  match l with
  | [] => Some 0
  | c :: r =>
      if Ascii.eqb (lower c) "e" then
        let (neg, ds) := take_sign r in
        match ds with
        | [] => None
        | _ =>
            if forallb is_digit ds
            then Some (if neg then - digits_value ds else digits_value ds)
            else None
        end
      else None
  end.

(** A decimal literal [digits[.digits][e[+-]digits]] with a digit before or
    after the point, read as [(d, scale)], its value being [d * 10^scale]. *)
Definition decimal_of (l : list ascii) : option (Z * Z) :=
  let (ip, rest) := span_digits l in
  let (fp, rest') :=
    match rest with
    | c :: r => if Ascii.eqb c "." then span_digits r else ([], rest)
    | [] => ([], rest)
    end in
  match ip ++ fp with
  | [] => None
  | ds =>
      match exponent_of rest' with
      | Some e => Some (digits_value ds, e - Z.of_nat (length fp))
      | None => None
      end
  end.

(** The binary64 number nearest to [d * 10^scale], for [0 <= d]. *)
Definition round_decimal (d scale : Z) : spec_float :=
  if 0 <=? scale then round_Z (d * 10 ^ scale)
  else round_ratio d (10 ^ (- scale)).

Definition signed (neg : bool) (x : spec_float) : spec_float :=
  if neg then SFopp x else x.

Definition is_word (w : string) (l : list ascii) : bool :=
  bool_decide (map lower l = list_ascii_of_string w).

(** [float(s)] for a str [s]: surrounding white space, an optional sign,
    then [inf], [infinity] or [nan] in any case, or a decimal literal whose
    digits single underscores may separate.  The literal is rounded to the
    nearest binary64 number; one out of range gives an infinity (no error).
    Anything else is a [ValueError]. *)
Definition float_of_str (s : string) : result float :=
  let (neg, body) := take_sign (strip (list_ascii_of_string s)) in
  if is_word "inf" body || is_word "infinity" body
  then Ok (SF2Prim (S754_infinity neg))
  else if is_word "nan" body then Ok nan
  else
    match drop_underscores false body with
    | Some body' =>
        match decimal_of body' with
        | Some (d, scale) => Ok (SF2Prim (signed neg (round_decimal d scale)))
        | None => Raise ValueError
        end
    | None => Raise ValueError
    end.

(** [float(v)]: a float is itself, an int and a bool convert, a str is
    parsed, and [None], a list or a dict is a [TypeError]. *)
Definition float_of (v : pyval) : result float :=
  match v with
  | PFloat f => Ok f
  | PInt z => float_of_int z
  | PBool b => Ok (if b then one else zero)
  | PStr s => float_of_str s
  | PNone | PList _ | PDict _ => Raise TypeError
  end.

(** *** Rounding to one decimal *)

(** The integer nearest to [num / den] for [0 < den], ties to even. *)
Definition nearest_even (num den : Z) : Z :=
  let q := num / den in
  let r := num mod den in
  match 2 * r ?= den with
  | Lt => q
  | Gt => q + 1
  | Eq => if Z.even q then q else q + 1
  end.

(** [round(x, 1)]: the exact value of [x] is rounded to one decimal, ties
    to even, and the decimal is converted back to the nearest float.  The
    sign of [x] is kept; infinities and NaN round to themselves. *)
Definition round1 (x : float) : float :=
  match Prim2SF x with
  | S754_finite s m e =>
      let tenths :=
        if 0 <=? e then Zpos m * 10 * 2 ^ e
        else nearest_even (Zpos m * 10) (2 ^ (- e)) in
      SF2Prim (signed s (round_ratio tenths 10))
  | _ => x
  end.

End Py.

(** ** Game records *)

(** The game object of a stat entry.  Only its season is read, an int when
    the entry is there. *)
Record game_info := { season : option Z }.

(** One element of the [data] list of a stats response: the game object
    under ["game"] when there is one, and the other entries of the
    dictionary, whose values are arbitrary JSON. *)
Record stat_record := {
  stat_game : option game_info;
  stat_fields : gmap string Py.pyval
}.

(** The averages of one season: the ten averaged entries, and the
    [games_played] entry, the only one that is an int. *)
Record averages := {
  avg : gmap string float;
  games_played : nat
}.

#[global] Instance float_inhabited : Inhabited float := populate 0%float.

(** ** The season aggregator

    The body of the loop [for season in seasons] of
    [compare_player_seasons], from the stats of one season to the entry
    stored in [season_averages_raw]. *)

Module Aggregator.
Import Py.

(** [totals.keys()], in insertion order.  The ten sums start at the int
    [0]; in [0 + x] and [0 / n] it is the float zero, which is what the
    sums hold here from the start.  The entry [games_played] is never
    updated: it is [total_games], kept apart from the sums. *)
Definition totals_keys : list string :=
  ["pts"; "reb"; "ast"; "stl"; "blk"; "turnover"; "fg_pct"; "fg3_pct";
   "ft_pct"; "min"; "games_played"]%string.

Definition initial_totals : gmap string float :=
  list_to_map
    ((fun key => (key, 0%float))
       <$> filter (fun key => key <> "games_played"%string) totals_keys).

(** Whether a str has a colon. *)
Definition has_colon (s : string) : bool :=
  existsb (Ascii.eqb ":") (list_ascii_of_string s).

(** [":" in min_str]: a character of a str, an element of a list, a key of
    a dict; the other values are not iterable. *)
Definition colon_in (min_str : pyval) : result bool :=
  match min_str with
  | PStr s => Ok (has_colon s)
  | PList l =>
      Ok (existsb
            (fun x => match x with PStr s => String.eqb s ":" | _ => false end)
            l)
  | PDict d => Ok (existsb (fun kv => String.eqb (fst kv) ":") d)
  | PNone | PBool _ | PInt _ | PFloat _ => Raise TypeError
  end.

(** The parts of [s.split(":")] after the part [part] being read, whose
    characters are kept in reverse. *)
Fixpoint split_colon_go (part : list ascii) (l : list ascii) : list string :=
  match l with
  | [] => [string_of_list_ascii (rev part)]
  | c :: r =>
      if Ascii.eqb c ":"
      then string_of_list_ascii (rev part) :: split_colon_go [] r
      else split_colon_go (c :: part) r
  end.

(** [s.split(":")]. *)
Definition split_colon (s : string) : list string :=
  split_colon_go [] (list_ascii_of_string s).

(** The minutes of a game, lines 405 to 410: what is added to
    [totals["min"]].  Unpacking anything but two parts is a [ValueError];
    a list or a dict has no [split]. *)
Definition minutes_of (min_str : pyval) : result float :=
  rbind (colon_in min_str) (fun has_colon =>
    if has_colon : bool then
      match min_str with
      | PStr s =>
          match split_colon s with
          | [minutes; seconds] =>
              rbind (int_of_str minutes) (fun m =>
              rbind (int_of_str seconds) (fun sec =>
              rbind (int_truediv sec 60) (fun part =>
              int_add_float m part)))
          | _ => Raise ValueError
          end
      | _ => Raise AttributeError
      end
    else float_of min_str).

(** [totals[key] += x]. *)
Definition add_to (key : string) (x : float) (totals : gmap string float)
  : gmap string float :=
  <[key := (totals !!! key + x)%float]> totals.

(** The body of the loop over the keys for a key other than
    [games_played], lines 401 to 419, before its [except] clauses. *)
Definition add_stat (key : string) (game : gmap string pyval)
    (totals : gmap string float) : result (gmap string float) :=
  if String.eqb key "min" then
    let min_str := default (PStr "0:0") (game !! key) in
    rbind (minutes_of min_str) (fun x => Ok (add_to key x totals))
  else
    match default (PInt 0) (game !! key) with
    | PNone => Ok totals
    | value => rbind (float_of value) (fun x => Ok (add_to key x totals))
    end.

(** [except (ValueError, TypeError)]. *)
Definition is_parse_error (e : exn) : bool :=
  match e with
  | ValueError | TypeError => true
  | _ => false
  end.

(** The loop over [totals.keys()] for one game, lines 396 to 422: the
    totals after it and [valid_game].  A parse error ends the loop with the
    sums of the keys before it already updated; any other exception leaves
    the loop. *)
Fixpoint game_loop (keys : list string) (game : gmap string pyval)
    (totals : gmap string float) : result (gmap string float * bool) :=
  match keys with
  | [] => Ok (totals, true)
  | key :: rest =>
      if String.eqb key "games_played" then game_loop rest game totals
      else
        match add_stat key game totals with
        | Ok totals' => game_loop rest game totals'
        | Raise e =>
            if is_parse_error e then Ok (totals, false) else Raise e
        end
  end.

(** The loop over the games, lines 394 to 425: the totals and
    [valid_games] after it. *)
Fixpoint stats_loop (stats : list stat_record) (totals : gmap string float)
    (valid_games : nat) : result (gmap string float * nat) :=
  match stats with
  | [] => Ok (totals, valid_games)
  | game :: rest =>
      rbind (game_loop totals_keys (stat_fields game) totals)
        (fun '(totals', valid_game) =>
           stats_loop rest totals'
             (if valid_game : bool then S valid_games else valid_games))
  end.

(** The averages from the totals and the number of valid games, lines 429
    and 430. *)
Definition averages_of (totals : gmap string float) (valid_games : nat)
    (total_games : nat) : averages :=
  {| avg := (fun v => v / float_of_count valid_games)%float <$> totals;
     games_played := total_games |}.

(** Lines 376 to 433: the value of [season_averages_raw[season]] for the
    stats of the season. *)
Definition season_average (stats : list stat_record)
  : result (option averages) :=
  match stats with
  | [] => Ok None
  | _ =>
      let total_games := length stats in
      if Nat.eqb total_games 0 then Ok None
      else
        rbind (stats_loop stats initial_totals 0) (fun '(totals, valid_games) =>
          if (0 <? valid_games)%nat then
            Ok (Some (averages_of totals valid_games total_games))
          else Ok None)
  end.

(** The built-in exceptions. *)
Definition builtin_error (e : exn) : bool :=
  match e with
  | ValueError | TypeError | OverflowError | AttributeError => true
  | _ => false
  end.

(** *** What a record contributes, apart from the totals *)

(** The keys of the nine numeric fields. *)
Definition numeric_keys : list string :=
  ["pts"; "reb"; "ast"; "stl"; "blk"; "turnover"; "fg_pct"; "fg3_pct";
   "ft_pct"]%string.

(** What [add_stat] adds for a key: nothing for a numeric field that is
    [None], otherwise the decoded value. *)
Definition contribution (key : string) (game : gmap string pyval)
  : result (option float) :=
  if String.eqb key "min" then
    rbind (minutes_of (default (PStr "0:0") (game !! key)))
          (fun x => Ok (Some x))
  else
    match default (PInt 0) (game !! key) with
    | PNone => Ok None
    | value => rbind (float_of value) (fun x => Ok (Some x))
    end.

(** [valid_game] after the loop over the keys, or the exception that
    leaves it. *)
Fixpoint game_status (keys : list string) (game : gmap string pyval)
  : result bool :=
  match keys with
  | [] => Ok true
  | key :: rest =>
      if String.eqb key "games_played" then game_status rest game
      else
        match contribution key game with
        | Ok _ => game_status rest game
        | Raise e => if is_parse_error e then Ok false else Raise e
        end
  end.

(** A record is valid when every field parses. *)
Definition valid_record (game : stat_record) : bool :=
  match game_status totals_keys (stat_fields game) with
  | Ok valid_game => valid_game
  | Raise _ => false
  end.

(** A record on which the loop over the keys is left by an exception. *)
Definition aborts (game : stat_record) : bool :=
  match game_status totals_keys (stat_fields game) with
  | Ok _ => false
  | Raise _ => true
  end.

Fixpoint count_valid (stats : list stat_record) : nat :=
  match stats with
  | [] => 0
  | game :: rest =>
      ((if valid_record game then 1 else 0) + count_valid rest)%nat
  end.

End Aggregator.

(** ** The growth calculator

    Lines 438 to 467 of [compare_player_seasons]. *)

Module Growth.
Import Py.

Definition key_metrics : list string :=
  ["pts"; "reb"; "ast"; "stl"; "blk"; "fg_pct"; "fg3_pct"; "ft_pct"]%string.

(** [((curr_value - prev_value) / abs(prev_value)) * 100]. *)
Definition pct_change (prev_value curr_value : float) : float :=
  ((curr_value - prev_value) / abs prev_value * 100)%float.

(** [prev_value and prev_value != 0]: a float is true unless it equals
    zero, so NaN passes. *)
Definition nonzero (prev_value : float) : bool :=
  negb (prev_value =? 0)%float && negb (prev_value =? 0)%float.

(** The entry of one metric, lines 456 to 464; [None] is the entry
    [None] of the dictionary.  [get(metric, 0)] reads an averaged entry
    or the default. *)
Definition metric_growth (prev_stats curr_stats : gmap string float)
    (metric : string) : option float :=
  let prev_value := default 0%float (prev_stats !! metric) in
  let curr_value := default 0%float (curr_stats !! metric) in
  if nonzero prev_value
  then Some (round1 (pct_change prev_value curr_value))
  else None.

(** [season_growth] after the loop over [key_metrics]. *)
Definition season_growth (prev_stats curr_stats : averages)
  : gmap string (option float) :=
  foldl
    (fun acc metric =>
       <[metric := metric_growth (avg prev_stats) (avg curr_stats) metric]> acc)
    ∅ key_metrics.

(** The key [f"{prev_season}-{curr_season}"]. *)
Definition pair_key (prev_season curr_season : Z) : string :=
  pretty prev_season +:+ "-" +:+ pretty curr_season.

(** [season_averages_raw.get(season)]; an entry [None] and a missing
    entry both read as [None]. *)
Definition raw_get (raw : gmap Z (option averages)) (season : Z)
  : option averages :=
  raw !! season ≫= id.

(** One turn of the loop [for i in range(1, len(seasons))]. *)
Definition growth_step (seasons : list Z) (raw : gmap Z (option averages))
    (growth : gmap string (gmap string (option float))) (i : nat)
  : gmap string (gmap string (option float)) :=
  match seasons !! (i - 1)%nat, seasons !! i with
  | Some prev_season, Some curr_season =>
      match raw_get raw prev_season, raw_get raw curr_season with
      | Some prev_stats, Some curr_stats =>
          <[pair_key prev_season curr_season :=
              season_growth prev_stats curr_stats]> growth
      | _, _ => growth
      end
  | _, _ => growth
  end.

(** What the turn [i] of the loop stores: nothing when an index is out of
    range or one of the two seasons has no averages. *)
Definition entry_at (seasons : list Z) (raw : gmap Z (option averages))
    (i : nat) : option (string * gmap string (option float)) :=
  match seasons !! (i - 1)%nat, seasons !! i with
  | Some prev_season, Some curr_season =>
      match raw_get raw prev_season, raw_get raw curr_season with
      | Some prev_stats, Some curr_stats =>
          Some (pair_key prev_season curr_season,
                season_growth prev_stats curr_stats)
      | _, _ => None
      end
  | _, _ => None
  end.

(** Whether a str has a minus sign. *)
Definition has_dash (s : string) : bool :=
  existsb (Ascii.eqb "-") (list_ascii_of_string s).

(** [growth] after the loop. *)
Definition compute_growth (seasons : list Z) (raw : gmap Z (option averages))
  : gmap string (gmap string (option float)) :=
  foldl (growth_step seasons raw) ∅ (seq 1 (length seasons - 1)).

End Growth.

(** ** The client *)

(** A call of [_request]: the endpoint and its parameters. *)
Inductive request :=
  | PlayerRequest (player_id : Z)
  | StatsRequest (player_id : Z) (season : option Z).

(** What a call of [_request] meets: a cached response that loads, an HTTP
    answer with its status code and the decoded body (read when the status
    is 200), or a [RequestException] of [requests.get]. *)
Inductive response (A : Type) :=
  | Cached (body : A)
  | Answer (status : Z) (body : A)
  | Unreachable.
Arguments Cached {A} body.
Arguments Answer {A} status body.
Arguments Unreachable {A}.

(** The state the client acts on: the calls of [_request] so far. *)
Definition world := list request.

(** Computations that read and extend the calls, and may raise. *)
Definition M (A : Type) : Type := world -> result A * world.

Definition ret {A} (a : A) : M A := fun w => (Ok a, w).

Definition raise {A} (e : exn) : M A := fun w => (Raise e, w).

Definition lift {A} (r : result A) : M A := fun w => (r, w).

Definition bind {A B} (m : M A) (k : A -> M B) : M B := fun w =>
  match m w with
  | (Ok a, w') => k a w'
  | (Raise e, w') => (Raise e, w')
  end.

(** [try: m  except Exception as e: handler e]. *)
Definition try_except {A} (m : M A) (handler : exn -> M A) : M A := fun w =>
  match m w with
  | (Ok a, w') => (Ok a, w')
  | (Raise e, w') => handler e w'
  end.

Notation "'let*' x ':=' m 'in' k" := (bind m (fun x => k))
  (at level 10, x pattern, m at level 100, k at level 200).

Module Client.
Import Py.

(** The exceptions of the statuses 401 and 429. *)
Definition auth_or_rate_limit (e : exn) : bool :=
  match e with
  | ApiKeyError | ApiRateLimitError => true
  | _ => false
  end.

(** The exceptions [compare_player_seasons] lets through as they are. *)
Definition reraised (e : exn) : bool :=
  match e with
  | PlayerNotFoundError _ | InvalidParameterError _ | ApiKeyError
  | ApiRateLimitError | RequestException _ => true
  | _ => false
  end.

Section Client.

(** The data source: what the players and the stats endpoints answer to a
    request, given the calls made before it.  The body of a players
    response is its [data] dictionary (empty when absent), that of a stats
    response its [data] list. *)
Variable players_endpoint : world -> Z -> response (gmap string pyval).
Variable stats_endpoint : world -> Z -> option Z -> response (list stat_record).

(** [datetime.now().year]. *)
Variable current_year : Z.

(** [_request], lines 74 to 144.  The exceptions for the statuses 401 and
    429 are raised inside the [try] whose last clause is
    [except Exception]. *)
Definition _request {A} (req : request) (source : world -> response A) : M A :=
  try_except
    (fun w =>
       match source w with
       | Cached body => (Ok body, w ++ [req])
       | Unreachable => (Raise (RequestException NetworkFailure), w ++ [req])
       | Answer status body =>
           if status =? 401 then (Raise ApiKeyError, w ++ [req])
           else if status =? 429 then (Raise ApiRateLimitError, w ++ [req])
           else if negb (status =? 200)
           then (Raise (RequestException (BadStatus status)), w ++ [req])
           else (Ok body, w ++ [req])
       end)
    (fun e =>
       match e with
       | RequestException _ => raise e
       | _ => raise (NBAApiException e)
       end).

(** [get_player], lines 213 to 250. *)
Definition get_player (player_id : Z) : M (gmap string pyval) :=
  try_except
    (if player_id <=? 0
     then raise (InvalidParameterError (BadPlayerId player_id))
     else
       let* player_data :=
         _request (PlayerRequest player_id)
                  (fun w => players_endpoint w player_id) in
       if bool_decide (player_data = ∅)
       then raise (PlayerNotFoundError player_id)
       else ret player_data)
    (fun e =>
       match e with
       | PlayerNotFoundError _ | ApiKeyError | ApiRateLimitError
       | RequestException _ => raise e
       | _ => raise (NBAApiException e)
       end).

Definition valid_season (season : Z) : bool :=
  (1946 <=? season) && (season <=? current_year).

(** [get_player_stats], lines 252 to 299.  [if season:] leaves the season
    [0] out of the parameters. *)
Definition get_player_stats (player_id : Z) (season : option Z)
  : M (list stat_record) :=
  try_except
    (if player_id <=? 0
     then raise (InvalidParameterError (BadPlayerId player_id))
     else
       match season with
       | Some s =>
           if negb (valid_season s)
           then raise (InvalidParameterError (BadSeason s))
           else
             let param := if s =? 0 then None else Some s in
             _request (StatsRequest player_id param)
                      (fun w => stats_endpoint w player_id param)
       | None =>
           _request (StatsRequest player_id None)
                    (fun w => stats_endpoint w player_id None)
       end)
    (fun e =>
       match e with
       | PlayerNotFoundError _ | InvalidParameterError _ | ApiKeyError
       | ApiRateLimitError | RequestException _ => raise e
       | _ => raise (NBAApiException e)
       end).

(** The seasons of the stat entries that have a game with a season,
    lines 309 to 312. *)
Definition collect_seasons (data : list stat_record) : gset Z :=
  foldl
    (fun seasons stat =>
       match stat_game stat with
       | Some game =>
           match season game with
           | Some s => {[s]} ∪ seasons
           | None => seasons
           end
       | None => seasons
       end)
    ∅ data.

(** [sorted(list(seasons))] for a set of ints. *)
Definition sorted_seasons (seasons : gset Z) : list Z :=
  merge_sort Z.le (elements seasons).

(** [get_player_seasons], lines 301 to 319. *)
Definition get_player_seasons (player_id : Z) : M (list Z) :=
  try_except
    (let* data :=
       _request (StatsRequest player_id None)
                (fun w => stats_endpoint w player_id None) in
     ret (sorted_seasons (collect_seasons data)))
    (fun e => raise e).

(** The loop of lines 362 to 366. *)
Fixpoint check_seasons (seasons : list Z) : M unit :=
  match seasons with
  | [] => ret tt
  | s :: rest =>
      if negb (valid_season s)
      then raise (InvalidParameterError (BadSeason s))
      else check_seasons rest
  end.

(** The loop of lines 373 to 433: [season_averages_raw] after it. *)
Fixpoint averages_loop (player_id : Z) (seasons : list Z)
    (raw : gmap Z (option averages)) : M (gmap Z (option averages)) :=
  match seasons with
  | [] => ret raw
  | s :: rest =>
      let* stats := get_player_stats player_id (Some s) in
      let* entry := lift (Aggregator.season_average stats) in
      averages_loop player_id rest (<[s := entry]> raw)
  end.

(** [d.get(key)] for a dict held as its items. *)
Definition dict_get (key : string) (d : list (string * pyval)) : pyval :=
  match find (fun kv => String.eqb (fst kv) key) d with
  | Some kv => snd kv
  | None => PNone
  end.

(** The entry [player] of the result, lines 471 to 475.  The name is
    formatted from the two values kept here. *)
Record player_summary := {
  id : pyval;
  first_name : pyval;
  last_name : pyval;
  team : pyval
}.

Definition summary_of (player : gmap string pyval) : result player_summary :=
  rbind
    (match player !! "team" with
     | None => Ok PNone
     | Some (PDict d) => Ok (dict_get "full_name" d)
     | Some _ => Raise AttributeError
     end)
    (fun full_name =>
       Ok {| id := default PNone (player !! "id");
             first_name := default PNone (player !! "first_name");
             last_name := default PNone (player !! "last_name");
             team := full_name |}).

(** The dictionary [compare_player_seasons] returns. *)
Record comparison := {
  player : player_summary;
  seasons : list Z;
  season_averages : gmap string (option averages);
  growth : gmap string (gmap string (option float));
  metrics : list string
}.

(** [compare_player_seasons], lines 321 to 490. *)
Definition compare_player_seasons (player_id : Z) (seasons : list Z)
  : M comparison :=
  try_except
    (if player_id <=? 0
     then raise (InvalidParameterError (BadPlayerId player_id))
     else
       match seasons with
       | [] => raise (InvalidParameterError EmptySeasons)
       | _ =>
           let* _ := check_seasons seasons in
           let* player := get_player player_id in
           let* raw := averages_loop player_id seasons ∅ in
           let* summary := lift (summary_of player) in
           ret {| player := summary;
                  seasons := seasons;
                  season_averages := kmap (pretty : Z -> string) raw;
                  growth := Growth.compute_growth seasons raw;
                  metrics := Growth.key_metrics |}
       end)
    (fun e =>
       match e with
       | PlayerNotFoundError _ | InvalidParameterError _ | ApiKeyError
       | ApiRateLimitError | RequestException _ => raise e
       | _ => raise (NBAApiException e)
       end).

End Client.
End Client.

(** ** Sample data *)

Module Samples.
Import Py.

(** Averages with only the points. *)
Definition points_only (pts : float) : averages :=
  {| avg := {[ "pts"%string := pts ]}; games_played := 1 |}.

(** A stat entry with the given fields and no game object. *)
Definition entry (fields : list (string * pyval)) : stat_record :=
  {| stat_game := None; stat_fields := list_to_map fields |}.

(** A game whose fields all parse. *)
Definition full_game : stat_record :=
  entry [("pts", PInt 10); ("min", PStr "30:00")]%string.

(** A game whose minutes are null. *)
Definition null_minutes_game : stat_record :=
  entry [("pts", PInt 10); ("min", PNone)]%string.

(** A game whose numeric fields are null and whose minutes are absent. *)
Definition null_numbers_game : stat_record :=
  entry [("pts", PNone); ("reb", PNone); ("ast", PNone); ("stl", PNone);
         ("blk", PNone); ("turnover", PNone); ("fg_pct", PNone);
         ("fg3_pct", PNone); ("ft_pct", PNone)]%string.

(** A game whose minutes do not parse. *)
Definition bad_minutes_game : stat_record :=
  entry [("pts", PInt 50); ("min", PStr "abc")]%string.

Definition three_seasons : list Z := [2021; 2022; 2023].

(** Averages for 2021 and 2023 and none for 2022. *)
Definition gap_in_2022 : gmap Z (option averages) :=
  {[ 2021 := Some (points_only 10); 2022 := None;
     2023 := Some (points_only 15) ]}.

(** A players endpoint that refuses the API key. *)
Definition unauthorized (w : world) (player_id : Z)
  : response (gmap string pyval) :=
  Answer 401 ∅.

(** A players endpoint that knows every player. *)
Definition any_player (w : world) (player_id : Z)
  : response (gmap string pyval) :=
  Answer 200 {[ "id"%string := PInt player_id ]}.

(** A stats endpoint without any stat entry. *)
Definition no_stats (w : world) (player_id : Z) (season : option Z)
  : response (list stat_record) :=
  Cached [].

(** A stats endpoint with one game in every season but 2022. *)
Definition nothing_in_2022 (w : world) (player_id : Z) (season : option Z)
  : response (list stat_record) :=
  if bool_decide (season = Some 2022) then Answer 200 []
  else Answer 200 [full_game].

(** A stats endpoint that answers the first call and limits the rate of
    the calls after it. *)
Definition rate_limited (w : world) (player_id : Z) (season : option Z)
  : response (list stat_record) :=
  match w with
  | [] | [_] => Answer 200 [full_game]
  | _ => Answer 429 []
  end.

End Samples.

(** ** What the totals of a season hold *)

Module Totals.
Import Py Aggregator.

(** Whether the loop over the keys reaches [key] and gets past it: [key]
    is among [keys], and it and every key before it parse. *)
Fixpoint parses_up_to (keys : list string) (game : gmap string pyval)
    (key : string) : bool :=
  match keys with
  | [] => false
  | k :: rest =>
      if String.eqb k "games_played" then parses_up_to rest game key
      else
        match contribution k game with
        | Ok _ => String.eqb k key || parses_up_to rest game key
        | Raise _ => false
        end
  end.

(** The value of a field: nothing when it is null or does not parse. *)
Definition value_of (game : gmap string pyval) (key : string)
  : option float :=
  match contribution key game with
  | Ok c => c
  | Raise _ => None
  end.

(** What the loop over [keys] adds to the total of [key] for one game. *)
Definition share_in (keys : list string) (game : gmap string pyval)
    (key : string) : option float :=
  if parses_up_to keys game key then value_of game key else None.

(** The sum, in the order of the records, of what each adds to [key]. *)
Definition total_of (key : string) (stats : list stat_record) : float :=
  foldl
    (fun acc game =>
       match share_in totals_keys (stat_fields game) key with
       | Some x => (acc + x)%float
       | None => acc
       end)
    0%float stats.

(** The sum, in the order of the records, of the values of [key]. *)
Definition sum_of (key : string) (stats : list stat_record) : float :=
  foldl
    (fun acc game =>
       match value_of (stat_fields game) key with
       | Some x => (acc + x)%float
       | None => acc
       end)
    0%float stats.

End Totals.

(** ** The calls and the exceptions of a comparison *)

Module Calls.

(** The calls of a comparison that reaches its end: one for the player,
    then one for each season, in the order of the list. *)
Definition expected_calls (player_id : Z) (seasons : list Z) : list request :=
  PlayerRequest player_id
  :: map (fun s => StatsRequest player_id (Some s)) seasons.

(** The exception classes that leave [compare_player_seasons]. *)
Definition leaves_compare (e : exn) : bool :=
  match e with
  | InvalidParameterError _ | PlayerNotFoundError _ | RequestException _
  | NBAApiException _ => true
  | _ => false
  end.

(** The exception classes that leave [_request]. *)
Definition leaves_request (e : exn) : bool :=
  match e with
  | RequestException _ | NBAApiException _ => true
  | _ => false
  end.

(** The exception classes that leave [get_player]. *)
Definition leaves_get_player (e : exn) : bool :=
  match e with
  | PlayerNotFoundError _ | RequestException _ | NBAApiException _ => true
  | _ => false
  end.

(** The exception classes that leave [get_player_stats]. *)
Definition leaves_get_player_stats (e : exn) : bool :=
  match e with
  | InvalidParameterError _ | RequestException _ | NBAApiException _ => true
  | _ => false
  end.

Definition is_ok {A} (r : result A) : bool :=
  match r with
  | Ok _ => true
  | Raise _ => false
  end.

(** What the [except] clauses of [compare_player_seasons] raise for an
    exception of its body. *)
Definition wrapped (e : exn) : exn :=
  if Client.reraised e then e else NBAApiException e.

(** Whether [get_player_stats] accepts its arguments. *)
Definition stats_input_ok (current_year player_id : Z) (season : option Z)
  : bool :=
  (0 <? player_id)
  && match season with
     | Some s => Client.valid_season current_year s
     | None => true
     end.

Definition is_invalid_parameter (e : exn) : bool :=
  match e with
  | InvalidParameterError _ => true
  | _ => false
  end.

(** A players endpoint whose answers have no data. *)
Definition unknown_player (w : world) (player_id : Z)
  : response (gmap string Py.pyval) :=
  Answer 200 ∅.

End Calls.

(** ** The search of players *)

Module Search.
Import Py.

(** White space of [str.strip] and [str.split] in the ASCII range: TAB to
    CR, FS to US, and the space. *)
Definition str_space (c : ascii) : bool :=
  let n := nat_of_ascii c in
  ((9 <=? n)%nat && (n <=? 13)%nat) || ((28 <=? n)%nat && (n <=? 32)%nat).

Fixpoint str_lstrip (l : list ascii) : list ascii :=
  match l with
  | c :: r => if str_space c then str_lstrip r else l
  | [] => []
  end.

(** [s.strip()]. *)
Definition str_strip (s : string) : string :=
  string_of_list_ascii
    (rev (str_lstrip (rev (str_lstrip (list_ascii_of_string s))))).

(** The words after the word [word] being read, whose characters are
    kept in reverse. *)
Fixpoint str_split_go (word : list ascii) (l : list ascii) : list string :=
  match l with
  | [] =>
      match word with
      | [] => []
      | _ => [string_of_list_ascii (rev word)]
      end
  | c :: r =>
      if str_space c then
        match word with
        | [] => str_split_go [] r
        | _ => string_of_list_ascii (rev word) :: str_split_go [] r
        end
      else str_split_go (c :: word) r
  end.

(** [s.split()]: the words between runs of white space. *)
Definition str_split (s : string) : list string :=
  str_split_go [] (list_ascii_of_string s).

(** One player of the [data] list of a players response: the value under
    ["id"] when there is one, an int, and the other entries. *)
Record player_entry := {
  entry_id : option Z;
  entry_fields : gmap string pyval
}.

(** The parameters of the two requests of [search_players]. *)
Inductive search_params :=
  | BySearch (search : string)
  | ByName (first_name last_name : string).

(** The loop of lines 192 to 196: [unique_results] after it.
    [player.get("id")] is [None] for a player without id. *)
Fixpoint unique_loop (all_results : list player_entry)
    (seen_ids : gset (option Z)) (unique_results : list player_entry)
  : list player_entry :=
  match all_results with
  | [] => unique_results
  | player :: rest =>
      if decide (entry_id player ∈ seen_ids)
      then unique_loop rest seen_ids unique_results
      else unique_loop rest ({[entry_id player]} ∪ seen_ids)
             (unique_results ++ [player])
  end.

Section Search.

(** [self._request("players", params).get("data", [])]: the request to
    the players endpoint with these parameters and the data of its
    response. *)
Variable request_players : search_params -> M (list player_entry).

(** [search_players], lines 146 to 211. *)
Definition search_players (name : string) : M (list player_entry) :=
  try_except
    (let name_parts := str_split (str_strip name) in
     if (1 <? length name_parts)%nat then
       let* results1 := request_players (BySearch name) in
       let* results2 :=
         request_players
           (ByName (hd ""%string name_parts)
                   (List.last name_parts ""%string)) in
       ret (unique_loop (results1 ++ results2) ∅ [])
     else request_players (BySearch name))
    (fun e => raise e).

End Search.

(** A player with an id and nothing else. *)
Definition with_id (i : Z) : player_entry :=
  {| entry_id := Some i; entry_fields := ∅ |}.

(** Players for a search that finds 1 and 2 by the name as a whole and 2
    and 3 by the first and the last name. *)
Definition two_lists (params : search_params) : M (list player_entry) :=
  match params with
  | BySearch _ => ret [with_id 1; with_id 2]
  | ByName _ _ => ret [with_id 2; with_id 3]
  end.

End Search.

(** ** The handlers of the statistics endpoints *)

(** The functions of [api/endpoints/stats.py], given a client.  What the
    framework does around a handler (the validation of the request, the
    serialisation of the value returned) is not part of them. *)

Module Endpoints.

(** What a handler or its [try] body raises: an exception of the client,
    an [HTTPException] with its status code, or the [ValidationError] of
    a model that does not accept its fields.  The last two are
    subclasses of [Exception]. *)
Inductive raised :=
  | ClientError (e : exn)
  | HTTPException (status_code : Z)
  | ValidationError.

Inductive outcome (A : Type) :=
  | Returns (a : A)
  | Raises (e : raised).
Arguments Returns {A} a.
Arguments Raises {A} e.

Definition handler (A : Type) : Type := world -> outcome A * world.

(** A call of a method of the client. *)
Definition call {A} (m : M A) : handler A := fun w =>
  match m w with
  | (Ok a, w') => (Returns a, w')
  | (Raise e, w') => (Raises (ClientError e), w')
  end.

(** The [except] clauses of the three handlers, in their order; the last
    is [except Exception].  The client raises no [SeasonNotFoundError],
    whose clause the two comparison handlers have besides. *)
Definition except_clauses (e : raised) : raised :=
  match e with
  | ClientError (PlayerNotFoundError _) => HTTPException 404
  | ClientError (InvalidParameterError _) => HTTPException 400
  | ClientError ApiKeyError => HTTPException 401
  | ClientError ApiRateLimitError => HTTPException 429
  | _ => HTTPException 500
  end.

(** [try: body  except ...: raise HTTPException(...)]. *)
Definition try_clauses {A} (body : handler A) : handler A := fun w =>
  match body w with
  | (Returns a, w') => (Returns a, w')
  | (Raises e, w') => (Raises (except_clauses e), w')
  end.

(** The request body of the POST handler. *)
Record StatisticsRequest := { seasons : list Z }.

Definition is_request_failure (e : exn) : bool :=
  match e with
  | RequestException _ | NBAApiException _ => true
  | _ => false
  end.

Section Endpoints.

Variable players_endpoint : world -> Z -> response (gmap string Py.pyval).
Variable stats_endpoint : world -> Z -> option Z -> response (list stat_record).
Variable current_year : Z.

(** [get_player_seasons], lines 36 to 86. *)
Definition get_player_seasons (player_id : Z) : handler (list Z) :=
  try_clauses
    (fun w =>
       match call (Client.get_player_seasons stats_endpoint player_id) w with
       | (Returns [], w') => (Raises (HTTPException 404), w')
       | (Returns seasons, w') => (Returns seasons, w')
       | (Raises e, w') => (Raises e, w')
       end).

(** [compare_seasons_get], lines 89 to 142. *)
Definition compare_seasons_get (player_id : Z) (seasons : list Z)
  : handler Client.comparison :=
  try_clauses
    (fun w =>
       if (length seasons <? 1)%nat
       then (Raises (HTTPException 400), w)
       else
         call (Client.compare_player_seasons players_endpoint stats_endpoint
                 current_year player_id seasons) w).

(** [compare_seasons_post], lines 145 to 197. *)
Definition compare_seasons_post (player_id : Z) (request : StatisticsRequest)
  : handler Client.comparison :=
  try_clauses
    (fun w =>
       if (length (seasons request) <? 1)%nat
       then (Raises (HTTPException 400), w)
       else
         call (Client.compare_player_seasons players_endpoint stats_endpoint
                 current_year player_id (seasons request)) w).

End Endpoints.

End Endpoints.

(** ** The handlers of the players endpoints *)

(** The functions [get_player] and [get_player_stats] of
    [api/endpoints/players.py], given a client.  They have no [try]:
    what the client raises leaves them. *)

Module PlayersEndpoints.
Import Endpoints.

Definition then_do {A B} (m : handler A) (k : A -> handler B) : handler B :=
  fun w =>
    match m w with
    | (Returns a, w') => k a w'
    | (Raises e, w') => (Raises e, w')
    end.

(** The construction of a model, which raises when it does not accept
    its fields. *)
Definition construct {A} (model : option A) : handler A := fun w =>
  match model with
  | Some a => (Returns a, w)
  | None => (Raises ValidationError, w)
  end.

Definition is_http_exception (e : raised) : bool :=
  match e with
  | HTTPException _ => true
  | _ => false
  end.

Section Players.

Variable players_endpoint : world -> Z -> response (gmap string Py.pyval).
Variable stats_endpoint : world -> Z -> option Z -> response (list stat_record).
Variable current_year : Z.

(** The models of [models/player.py]: [Player] from the data of a
    player, [PlayerStat] from the fields of a stat entry and the season,
    and [PlayerWithStats] from a player model and the stats, each giving
    no model when its validation fails. *)
Variables player_model stat_model full_model : Type.
Variable Player : gmap string Py.pyval -> option player_model.
Variable PlayerStat : stat_record -> option Z -> option stat_model.
Variable PlayerWithStats :
  player_model -> option stat_model -> option full_model.

(** [get_player], lines 42 to 53. *)
Definition get_player (player_id : Z) : handler player_model :=
  then_do (call (Client.get_player players_endpoint player_id))
    (fun player =>
       if bool_decide (player = ∅)
       then fun w => (Raises (HTTPException 404), w)
       else construct (Player player)).

(** [get_player_stats], lines 56 to 99. *)
Definition get_player_stats (player_id : Z) (season : option Z)
  : handler full_model :=
  then_do (call (Client.get_player players_endpoint player_id))
    (fun player =>
       if bool_decide (player = ∅)
       then fun w => (Raises (HTTPException 404), w)
       else
         then_do
           (call (Client.get_player_stats stats_endpoint current_year
                    player_id season))
           (fun stats =>
              match stats with
              | [] =>
                  then_do (construct (Player player)) (fun model =>
                  construct (PlayerWithStats model None))
              | stat_data :: _ =>
                  then_do (construct (PlayerStat stat_data season))
                    (fun player_stat =>
                  then_do (construct (Player player)) (fun model =>
                  construct (PlayerWithStats model (Some player_stat))))
              end)).

End Players.

End PlayersEndpoints.

(** ** The rate limit of the server *)

(** [rate_limit_middleware] of [main.py], lines 44 to 65, up to the call
    of [call_next]: what it decides for a request and what it does to
    [request_counts]. *)

Module RateLimit.

(** An entry of [request_counts]. *)
Record entry := { count : Z; timestamp : float }.

Inductive verdict :=
  | Refused      (* the response with the status 429 *)
  | Passed.      (* [call_next(request)] *)

(** The middleware for a request of the address [client_ip], [now] being
    what [time.time()] gives when it is called. *)
Definition rate_limit_middleware (client_ip : string) (now : float)
    (request_counts : gmap string entry) : verdict * gmap string entry :=
  match request_counts !! client_ip with
  | Some e =>
      if (100 <? count e) && (now - timestamp e <? 60)%float
      then (Refused, request_counts)
      else (Passed,
            <[client_ip := {| count := count e + 1;
                              timestamp := timestamp e |}]> request_counts)
  | None =>
      (Passed, <[client_ip := {| count := 1; timestamp := now |}]>
                 request_counts)
  end.

(** The verdicts for requests that arrive one after the other, each with
    its address and its time, and [request_counts] after them. *)
Fixpoint serve (requests : list (string * float))
    (request_counts : gmap string entry)
  : list verdict * gmap string entry :=
  match requests with
  | [] => ([], request_counts)
  | (client_ip, now) :: rest =>
      let '(v, counts) := rate_limit_middleware client_ip now request_counts in
      let '(vs, counts') := serve rest counts in
      (v :: vs, counts')
  end.

(** The time of the first request of an address. *)
Definition first_time (client_ip : string) (requests : list (string * float))
  : option float :=
  snd <$> List.find (fun r => String.eqb (fst r) client_ip) requests.

(** How many requests of an address were let through, among requests
    and their verdicts. *)
Definition passed (client_ip : string)
    (served : list ((string * float) * verdict)) : Z :=
  Z.of_nat
    (length
       (List.filter
          (fun rv =>
             String.eqb (fst (fst rv)) client_ip
             && match snd rv with Passed => true | Refused => false end)
          served)).

(** The requests served since the start of the server, with their
    verdicts. *)
Definition history (requests : list (string * float))
  : list ((string * float) * verdict) :=
  zip requests (fst (serve requests ∅)).

(** Requests of one address at the given times. *)
Definition burst (client_ip : string) (times : list float)
  : list (string * float) :=
  map (fun t => (client_ip, t)) times.

End RateLimit.

(** ** The files of the cache *)

(** [_get_cache_path], lines 54 to 72 of [client.py]. *)

Module Cache.

(** A value of the parameters of a request: an int or a str. *)
Inductive param_value :=
  | IntValue (z : Z)
  | StrValue (s : string).

(** The value inside an f-string. *)
Definition str_of (v : param_value) : string :=
  match v with
  | IntValue z => pretty z
  | StrValue s => s
  end.

(** [s.replace('/', '_')]. *)
Fixpoint replace_slash (s : string) : string :=
  match s with
  | EmptyString => EmptyString
  | String c r =>
      String (if Ascii.eqb c "/" then "_"%char else c) (replace_slash r)
  end.

(** The order of [sorted] on the items of a dict: the keys differ, so
    the order of the items is that of their keys, which are compared
    character by character. *)
Definition item_le (a b : string * param_value) : Prop :=
  String.leb (fst a) (fst b) = true.

#[global] Instance item_le_dec : RelDecision item_le :=
  fun a b => decide (String.leb (fst a) (fst b) = true).

(** [sorted(params.items())], the dict being held as its items in the
    order of their insertion. *)
Definition sorted_items (params : list (string * param_value))
  : list (string * param_value) :=
  merge_sort item_le params.

(** ['_'.join(parts)]. *)
Fixpoint join_underscore (parts : list string) : string :=
  match parts with
  | [] => ""
  | [part] => part
  | part :: rest => part +:+ "_" +:+ join_underscore rest
  end.

Definition param_str (params : list (string * param_value)) : string :=
  join_underscore
    (map (fun kv => fst kv +:+ "_" +:+ str_of (snd kv))
         (sorted_items params)).

(** The name of the file; [if params:] is false for [None] and for the
    empty dict. *)
Definition filename (endpoint : string)
    (params : list (string * param_value)) : string :=
  match params with
  | [] => replace_slash endpoint +:+ ".json"
  | _ => replace_slash endpoint +:+ "_" +:+ param_str params +:+ ".json"
  end.

Definition starts_with_slash (s : string) : bool :=
  match s with
  | String c _ => Ascii.eqb c "/"
  | EmptyString => false
  end.

Fixpoint ends_with_slash (s : string) : bool :=
  match s with
  | EmptyString => false
  | String c EmptyString => Ascii.eqb c "/"
  | String _ r => ends_with_slash r
  end.

(** [os.path.join(a, b)] of [posixpath]. *)
Definition os_path_join (a b : string) : string :=
  if starts_with_slash b then b
  else if String.eqb a "" || ends_with_slash a then a +:+ b
  else a +:+ "/" +:+ b.

Definition _get_cache_path (cache_dir endpoint : string)
    (params : list (string * param_value)) : string :=
  os_path_join cache_dir (filename endpoint params).

(** The endpoint and the parameters of the requests of [get_player],
    [get_player_stats] and [get_player_seasons]. *)
Definition endpoint_of (req : request) : string :=
  match req with
  | PlayerRequest player_id => "players/" +:+ pretty player_id
  | StatsRequest _ _ => "stats"
  end.

Definition params_of (req : request) : list (string * param_value) :=
  match req with
  | PlayerRequest _ => []
  | StatsRequest player_id season =>
      ("player_ids[]"%string, IntValue player_id)
      :: match season with
         | Some s => [("seasons[]"%string, IntValue s)]
         | None => []
         end
  end.

(** The parameters of the two requests of [search_players]. *)
Definition search_params_of (params : Search.search_params)
  : list (string * param_value) :=
  match params with
  | Search.BySearch name => [("search"%string, StrValue name)]
  | Search.ByName first_name last_name =>
      [("first_name"%string, StrValue first_name);
       ("last_name"%string, StrValue last_name)]
  end.

(** Whether a str is made of digits and minus signs. *)
Definition decimal_text (s : string) : bool :=
  forallb (fun c => Py.is_digit c || Ascii.eqb c "-")
          (list_ascii_of_string s).

(** What follows a decimal text: a character that is none of its own. *)
Definition ends_decimal (s : string) : bool :=
  match s with
  | String c _ => negb (Py.is_digit c || Ascii.eqb c "-")
  | EmptyString => false
  end.

End Cache.

(** ** Records from their fields *)

Module Records.
Import Py Aggregator.

(** Whether the loop gets past a numeric field: the field is absent and
    reads as 0, or is [None] and is left out, or holds a value [float]
    converts. *)
Definition number_passes (game : gmap string pyval) (key : string) : bool :=
  match default (PInt 0) (game !! key) with
  | PNone => true
  | value =>
      match float_of value with
      | Ok _ => true
      | Raise _ => false
      end
  end.

Definition numbers_pass (game : gmap string pyval) : bool :=
  forallb (number_passes game) numeric_keys.

(** [game.get("min", "0:0")]. *)
Definition min_str (game : gmap string pyval) : pyval :=
  default (PStr "0:0") (game !! "min"%string).



End Records.

(** * Properties *)

(** ** The season aggregator *)

Module AggregatorFacts.
Import Py Aggregator.

Lemma add_stat_contribution key game totals :
  add_stat key game totals =
  rbind (contribution key game) (fun c =>
    Ok (match c with
        | Some x => add_to key x totals
        | None => totals
        end)).
Proof.
  unfold add_stat, contribution.
  destruct (String.eqb key "min").
  - destruct (minutes_of _); reflexivity.
  - destruct (default (PInt 0) (game !! key)); try reflexivity;
      simpl; match goal with |- context [rbind ?r _] => destruct r end;
      reflexivity.
Qed.

(** Whether a record is valid does not depend on the totals so far. *)
Lemma game_loop_status keys game totals :
  match game_loop keys game totals with
  | Ok (_, valid_game) => game_status keys game = Ok valid_game
  | Raise e => game_status keys game = Raise e
  end.
Proof.
  revert totals. induction keys as [|key rest IH]; intros totals; simpl.
  - reflexivity.
  - destruct (String.eqb key "games_played"); [apply IH|].
    rewrite add_stat_contribution.
    destruct (contribution key game) as [c|e]; simpl.
    + apply IH.
    + destruct (is_parse_error e); reflexivity.
Qed.

Lemma game_loop_valid_record game totals totals' valid_game :
  game_loop totals_keys (stat_fields game) totals = Ok (totals', valid_game) ->
  valid_record game = valid_game /\ aborts game = false.
Proof.
  intros H.
  pose proof (game_loop_status totals_keys (stat_fields game) totals) as S.
  rewrite H in S. unfold valid_record, aborts. rewrite S. auto.
Qed.

Lemma game_loop_aborts game totals e :
  game_loop totals_keys (stat_fields game) totals = Raise e ->
  aborts game = true.
Proof.
  intros H.
  pose proof (game_loop_status totals_keys (stat_fields game) totals) as S.
  rewrite H in S. unfold aborts. rewrite S. reflexivity.
Qed.

(** [valid_games] counts the valid records. *)
Lemma stats_loop_counts stats : forall totals n totals' n',
  stats_loop stats totals n = Ok (totals', n') ->
  n' = (n + count_valid stats)%nat.
Proof.
  induction stats as [|game rest IH]; intros totals n totals' n' H;
    cbn [stats_loop count_valid] in *.
  - inversion H; subst. lia.
  - destruct (game_loop totals_keys (stat_fields game) totals)
      as [[t valid_game]|e] eqn:G; cbn [rbind] in H; [|discriminate].
    apply game_loop_valid_record in G as [-> _].
    apply IH in H. destruct valid_game; lia.
Qed.

(** The loop over the games ends unless a record leaves it. *)
Lemma stats_loop_completes stats : forall totals n,
  (forall game, game ∈ stats -> aborts game = false) ->
  exists totals',
    stats_loop stats totals n = Ok (totals', (n + count_valid stats)%nat).
Proof.
  induction stats as [|game rest IH]; intros totals n Hno;
    cbn [stats_loop count_valid].
  - exists totals. f_equal. f_equal. lia.
  - destruct (game_loop totals_keys (stat_fields game) totals)
      as [[t valid_game]|e] eqn:G; cbn [rbind].
    + apply game_loop_valid_record in G as [<- _].
      destruct (IH t (if valid_record game then S n else n)) as [t' Ht'].
      { intros g Hg. apply Hno. now apply list_elem_of_further. }
      exists t'. rewrite Ht'. f_equal. f_equal.
      destruct (valid_record game); lia.
    + apply game_loop_aborts in G. rewrite Hno in G by apply list_elem_of_here.
      discriminate.
Qed.

(** *** Splitting the minutes *)






Lemma int_of_str_error s e : int_of_str s = Raise e -> e = ValueError.
Proof.
  unfold int_of_str. destruct (take_sign _) as [neg body].
  destruct (drop_underscores false body) as [[|c r]|]; try congruence.
  destruct (_ && _); congruence.
Qed.

Lemma float_of_str_error s e : float_of_str s = Raise e -> e = ValueError.
Proof.
  unfold float_of_str. destruct (take_sign _) as [neg body].
  destruct (_ || _); [congruence|].
  destruct (is_word "nan" body); [congruence|].
  destruct (drop_underscores false body) as [body'|]; [|congruence].
  destruct (decimal_of body') as [[d scale]|]; congruence.
Qed.

(** A field that raises keeps the record from being valid. *)
Lemma game_status_not_valid keys game key e :
  key ∈ keys -> key <> "games_played"%string ->
  contribution key game = Raise e ->
  game_status keys game <> Ok true.
Proof.
  intros Hin Hkey Hraise. induction keys as [|k rest IH]; simpl.
  - now apply elem_of_nil in Hin.
  - apply elem_of_cons in Hin as [<-|Hin].
    + apply String.eqb_neq in Hkey. rewrite Hkey, Hraise.
      destruct (is_parse_error e); congruence.
    + destruct (String.eqb k "games_played"); [now apply IH|].
      destruct (contribution k game) as [c|e']; [now apply IH|].
      destruct (is_parse_error e'); congruence.
Qed.

Lemma raising_minutes_invalidate game e :
  minutes_of (default (PStr "0:0") (stat_fields game !! "min"%string))
  = Raise e ->
  valid_record game = false.
Proof.
  intros H. unfold valid_record.
  pose proof
    (game_status_not_valid totals_keys (stat_fields game) "min" e) as N.
  destruct (game_status totals_keys (stat_fields game)) as [[]|];
    try reflexivity.
  exfalso. apply N; try reflexivity.
  - unfold totals_keys. rewrite !elem_of_cons. tauto.
  - discriminate.
  - unfold contribution. simpl. rewrite H. reflexivity.
Qed.


(** *** Absent and null fields *)

Lemma numeric_key_cases key :
  key ∈ numeric_keys ->
  String.eqb key "min" = false /\ String.eqb key "games_played" = false.
Proof.
  unfold numeric_keys. rewrite !elem_of_cons, elem_of_nil.
  intros H. repeat destruct H as [->|H]; try (split; reflexivity).
  contradiction.
Qed.



(** *** The exceptions of the aggregation *)

Lemma float_of_int_error z e : float_of_int z = Raise e -> e = OverflowError.
Proof.
  unfold float_of_int, finite_or_overflow. destruct (round_Z z); congruence.
Qed.

Lemma float_of_error value e :
  float_of value = Raise e -> builtin_error e = true.
Proof.
  destruct value; cbn [float_of]; intros H; try discriminate;
    try (injection H as <-; reflexivity).
  - now rewrite (float_of_int_error _ _ H).
  - now rewrite (float_of_str_error _ _ H).
Qed.

Lemma minutes_of_error min_str e :
  minutes_of min_str = Raise e -> builtin_error e = true.
Proof.
  unfold minutes_of.
  destruct (colon_in min_str) as [[|]|e0] eqn:Hc; simpl.
  - destruct min_str; try (intros [= <-]; reflexivity).
    destruct (split_colon s) as [|a [|b [|c r]]];
      try (intros [= <-]; reflexivity).
    destruct (int_of_str a) as [m|ea] eqn:Ea; simpl.
    2: { intros [= <-]. now rewrite (int_of_str_error _ _ Ea). }
    destruct (int_of_str b) as [sec|eb] eqn:Eb; simpl.
    2: { intros [= <-]. now rewrite (int_of_str_error _ _ Eb). }
    unfold int_truediv, int_add_float, float_of_int, finite_or_overflow.
    destruct (round_ratio sec 60); simpl;
      try (intros [= <-]; reflexivity);
      destruct (round_Z m); simpl; intros [= <-]; reflexivity.
  - apply float_of_error.
  - destruct min_str; simpl in Hc; try discriminate;
      injection Hc as <-; intros [= <-]; reflexivity.
Qed.

(** Only built-in exceptions leave the aggregation of a season. *)
Lemma season_average_error stats e :
  season_average stats = Raise e -> builtin_error e = true.
Proof.
  assert (forall key game, forall e',
            contribution key game = Raise e' -> builtin_error e' = true) as Hc.
  { intros key game e'. unfold contribution.
    destruct (String.eqb key "min").
    - destruct (minutes_of _) eqn:M; simpl; [discriminate|].
      intros [= <-]. eapply minutes_of_error, M.
    - destruct (default (PInt 0) (game !! key)) eqn:V; try discriminate;
        match goal with
        | |- rbind ?r _ = _ -> _ => destruct r eqn:F; simpl; [discriminate|]
        end; intros [= <-]; eapply float_of_error, F. }
  assert (forall keys game totals e',
            game_loop keys game totals = Raise e' ->
            builtin_error e' = true) as Hg.
  { induction keys as [|key rest IH]; intros game totals e'; simpl.
    - discriminate.
    - destruct (String.eqb key "games_played"); [apply IH|].
      rewrite add_stat_contribution.
      destruct (contribution key game) as [c|e0] eqn:C; simpl; [apply IH|].
      destruct (is_parse_error e0); [discriminate|].
      intros [= <-]. eapply Hc, C. }
  assert (forall l totals n e',
            stats_loop l totals n = Raise e' -> builtin_error e' = true) as Hs.
  { induction l as [|game rest IH]; intros totals n e'; cbn [stats_loop].
    - discriminate.
    - destruct (game_loop totals_keys (stat_fields game) totals)
        as [[t valid_game]|e0] eqn:G; cbn [rbind].
      + apply IH.
      + intros [= <-]. eapply Hg, G. }
  unfold season_average. destruct stats as [|game rest]; [discriminate|].
  change (Nat.eqb (length (game :: rest)) 0) with false. cbv iota.
  destruct (stats_loop (game :: rest) initial_totals 0)
    as [[totals n]|e0] eqn:L; cbn [rbind].
  - destruct (0 <? n)%nat; discriminate.
  - intros [= <-]. eapply Hs, L.
Qed.

(** *** The entries of the averages *)

Lemma add_stat_keeps key game totals totals' k :
  add_stat key game totals = Ok totals' ->
  is_Some (totals !! k) -> is_Some (totals' !! k).
Proof.
  rewrite add_stat_contribution.
  destruct (contribution key game) as [[x|]|e]; cbn [rbind];
    intros [= <-]; [|auto].
  intros H. unfold add_to. apply lookup_insert_is_Some.
  destruct (decide (key = k)); auto.
Qed.

Lemma game_loop_keeps keys game k : forall totals totals' valid_game,
  game_loop keys game totals = Ok (totals', valid_game) ->
  is_Some (totals !! k) -> is_Some (totals' !! k).
Proof.
  induction keys as [|key rest IH]; intros totals totals' valid_game;
    cbn [game_loop].
  - intros [= <- _]. auto.
  - destruct (String.eqb key "games_played"); [apply IH|].
    destruct (add_stat key game totals) as [t|e] eqn:A.
    + intros H Hk. apply (IH _ _ _ H). eapply add_stat_keeps; eauto.
    + destruct (is_parse_error e); [|discriminate]. intros [= <- _]. auto.
Qed.

Lemma stats_loop_keeps stats k : forall totals n totals' n',
  stats_loop stats totals n = Ok (totals', n') ->
  is_Some (totals !! k) -> is_Some (totals' !! k).
Proof.
  induction stats as [|game rest IH]; intros totals n totals' n';
    cbn [stats_loop].
  - intros [= <- _]. auto.
  - destruct (game_loop totals_keys (stat_fields game) totals)
      as [[t valid_game]|e] eqn:G; cbn [rbind]; [|discriminate].
    intros H Hk. apply (IH _ _ _ _ H). eapply game_loop_keeps; eauto.
Qed.

(** The averages of a season hold a float for each of the ten keys, so
    for every metric of the growth. *)
Lemma season_average_entries stats a key :
  season_average stats = Ok (Some a) ->
  key ∈ numeric_keys \/ key = "min"%string ->
  is_Some (avg a !! key).
Proof.
  intros H Hkey.
  assert (is_Some (initial_totals !! key)) as Hinit.
  { destruct Hkey as [Hkey| ->]; [|vm_compute; eauto].
    unfold numeric_keys in Hkey. rewrite !elem_of_cons, elem_of_nil in Hkey.
    repeat destruct Hkey as [->|Hkey]; try (vm_compute; eauto).
    contradiction. }
  unfold season_average in H. destruct stats as [|g rest]; [discriminate|].
  change (Nat.eqb (length (g :: rest)) 0) with false in H. cbv iota in H.
  destruct (stats_loop (g :: rest) initial_totals 0)
    as [[totals n]|e] eqn:L; cbn [rbind] in H; [|discriminate].
  destruct (0 <? n)%nat; [|discriminate].
  injection H as <-. unfold averages_of. cbn [avg].
  rewrite lookup_fmap. apply fmap_is_Some.
  eapply stats_loop_keeps; eauto.
Qed.

(** C1. On a season of two records, the first valid with 10 points and the
    second with 50 points and minutes that do not parse, the second record
    is not valid and [games_played] is 2, yet its points are in the total:
    the average of the points is 60, not the 10 of the only valid
    record. *)
Theorem invalid_record_adds_to_totals :
  valid_record Samples.full_game = true
  /\ valid_record Samples.bad_minutes_game = false
  /\ exists a,
       season_average [Samples.full_game; Samples.bad_minutes_game]
       = Ok (Some a)
       /\ games_played a = 2%nat
       /\ avg a !! "pts"%string = Some 60%float
       /\ avg a !! "min"%string = Some 30%float.
Proof.
  split; [vm_compute; reflexivity|].
  split; [vm_compute; reflexivity|].
  eexists. split; [vm_compute; reflexivity|].
  repeat split; vm_compute; reflexivity.
Qed.

End AggregatorFacts.

(** ** The growth calculator *)

Module GrowthFacts.
Import Py Growth.

(** Storing [f key] under every key of a list. *)
Lemma lookup_foldl_insert {A} (f : string -> A) (keys : list string) :
  forall (init : gmap string A) (key : string),
    foldl (fun acc k => <[k := f k]> acc) init keys !! key
    = if decide (key ∈ keys) then Some (f key) else init !! key.
Proof.
  induction keys as [|k rest IH]; intros init key; cbn [foldl].
  - rewrite decide_False by apply not_elem_of_nil. reflexivity.
  - rewrite IH. destruct (decide (key ∈ rest)) as [Hin|Hout].
    + rewrite decide_True by (now apply list_elem_of_further). reflexivity.
    + destruct (decide (key = k)) as [->|Hne].
      * rewrite decide_True by apply list_elem_of_here.
        apply lookup_insert_eq.
      * rewrite decide_False by (rewrite elem_of_cons; tauto).
        now apply lookup_insert_ne.
Qed.

Lemma season_growth_lookup prev_stats curr_stats metric :
  metric ∈ key_metrics ->
  season_growth prev_stats curr_stats !! metric
  = Some (metric_growth (avg prev_stats) (avg curr_stats) metric).
Proof.
  intros H. unfold season_growth.
  rewrite (lookup_foldl_insert
             (metric_growth (avg prev_stats) (avg curr_stats))).
  now rewrite decide_True.
Qed.

Lemma nonzero_eqb prev_value :
  nonzero prev_value = negb (prev_value =? 0)%float.
Proof. unfold nonzero. apply andb_diag. Qed.

(** C3. For a metric of the fixed list, the growth entry is [None] when
    the previous averages lack the metric or hold a zero for it, and
    otherwise [round(((curr - prev) / abs(prev)) * 100, 1)], a missing
    current value reading as 0.  Points of 10 then 15 give 50.0, and
    previous points of 0 give [None].  An averaged entry is a float, never
    [None]. *)
Theorem growth_entry :
  (forall (prev_stats curr_stats : averages) (metric : string),
     metric ∈ key_metrics ->
     season_growth prev_stats curr_stats !! metric
     = Some
         match avg prev_stats !! metric with
         | None => None
         | Some prev_value =>
             if (prev_value =? 0)%float then None
             else
               Some (round1
                       ((default 0 (avg curr_stats !! metric) - prev_value)
                        / abs prev_value * 100))%float
         end)
  /\ season_growth (Samples.points_only 10) (Samples.points_only 15)
       !! "pts"%string = Some (Some 50%float)
  /\ season_growth (Samples.points_only 0) (Samples.points_only 15)
       !! "pts"%string = Some None.
Proof.
  split; [|split; vm_compute; reflexivity].
  intros prev_stats curr_stats metric H.
  rewrite season_growth_lookup by assumption. f_equal.
  unfold metric_growth. rewrite nonzero_eqb.
  destruct (avg prev_stats !! metric) as [prev_value|]; simpl.
  - destruct (prev_value =? 0)%float; reflexivity.
  - reflexivity.
Qed.

(** C3, for the points of the two sample averages. *)
Lemma growth_entry_witness :
  season_growth (Samples.points_only 10) (Samples.points_only 15)
    !! "pts"%string
  = Some (Some (round1 ((15 - 10) / abs 10 * 100))%float).
Proof.
  refine (proj1 growth_entry (Samples.points_only 10)
            (Samples.points_only 15) "pts"%string _).
  unfold key_metrics. apply list_elem_of_here.
Defined.

(** *** The keys of the growth mapping *)

Lemma pretty_N_go_no_dash (x : N) : forall s,
  has_dash s = false -> has_dash (pretty_N_go x s) = false.
Proof.
  induction (N.lt_wf_0 x) as [x _ IH]; intros s Hs.
  destruct (decide (x = 0%N)) as [->|Hx].
  - now rewrite pretty_N_go_0.
  - rewrite pretty_N_go_step by lia. apply IH.
    + apply N.div_lt; lia.
    + unfold has_dash in *. cbn [list_ascii_of_string existsb]. rewrite Hs.
      unfold pretty_N_char. repeat case_match; reflexivity.
Qed.

(** The decimal form of an int that is not negative has no minus sign. *)
Lemma pretty_no_dash (z : Z) : 0 <= z -> has_dash (pretty z) = false.
Proof.
  intros Hz. destruct z as [|p|p]; [reflexivity| |lia].
  change (pretty (Z.pos p)) with (pretty (N.pos p)).
  unfold pretty, pretty_N. rewrite decide_False by discriminate.
  now apply pretty_N_go_no_dash.
Qed.

(** Texts without a minus sign, each followed by one, are told apart. *)
Lemma dash_separates (x x' y y' : string) :
  has_dash x = false -> has_dash x' = false ->
  x +:+ "-" +:+ y = x' +:+ "-" +:+ y' -> x = x' /\ y = y'.
Proof.
  unfold has_dash. revert x'.
  induction x as [|c x IH]; intros [|c' x'] Hx Hx' H;
    cbn [list_ascii_of_string existsb String.app] in *.
  - injection H as H. auto.
  - injection H as <- H. apply orb_false_iff in Hx' as [Hc _].
    now rewrite Ascii.eqb_refl in Hc.
  - injection H as -> H. apply orb_false_iff in Hx as [Hc _].
    now rewrite Ascii.eqb_refl in Hc.
  - injection H as -> H.
    apply orb_false_iff in Hx as [_ Hx].
    apply orb_false_iff in Hx' as [_ Hx'].
    destruct (IH x' Hx Hx' H) as [-> ->]. auto.
Qed.

Lemma pretty_N_go_nonempty (x : N) : forall c s,
  pretty_N_go x (String c s) <> ""%string.
Proof.
  induction (N.lt_wf_0 x) as [x _ IH]; intros c s.
  destruct (decide (x = 0%N)) as [->|Hx].
  - rewrite pretty_N_go_0. discriminate.
  - rewrite pretty_N_go_step by lia. apply IH. apply N.div_lt; lia.
Qed.

(** The decimal form of an int that is not negative starts with a
    character that is not a minus sign. *)
Lemma pretty_starts_without_dash (z : Z) :
  0 <= z ->
  exists c r, pretty z = String c r /\ Ascii.eqb "-" c = false.
Proof.
  intros Hz. pose proof (pretty_no_dash z Hz) as Hd.
  destruct (pretty z) as [|c r] eqn:E.
  - exfalso. destruct z as [|p|p]; [discriminate| |lia].
    change (pretty (Z.pos p)) with (pretty (N.pos p)) in E.
    unfold pretty, pretty_N in E. rewrite decide_False in E by discriminate.
    rewrite pretty_N_go_step in E by lia.
    now apply pretty_N_go_nonempty in E.
  - exists c, r. split; [reflexivity|].
    unfold has_dash in Hd. cbn [list_ascii_of_string existsb] in Hd.
    now apply orb_false_iff in Hd as [? _].
Qed.

(** Two pairs of seasons have different keys. *)
Lemma pair_key_inj (a b c d : Z) :
  pair_key a b = pair_key c d -> a = c /\ b = d.
Proof.
  assert (forall x y u v : Z, 0 <= x -> 0 <= u ->
            pretty x +:+ "-" +:+ pretty y = pretty u +:+ "-" +:+ pretty v ->
            x = u /\ y = v) as Hpos.
  { intros x y u v Hx Hu H.
    apply dash_separates in H as [H1 H2]; try now apply pretty_no_dash.
    split; now apply (inj pretty). }
  assert (forall (x y : Z) (q : positive) (v : Z), 0 <= x ->
            pretty x +:+ "-" +:+ pretty y
            <> pretty (Z.neg q) +:+ "-" +:+ pretty v) as Hmixed.
  { intros x y q v Hx H.
    destruct (pretty_starts_without_dash x Hx) as (ch & r & E & Hch).
    rewrite E in H. change (pretty (Z.neg q)) with ("-" +:+ pretty q) in H.
    cbn [String.app] in H. injection H as -> _.
    now rewrite Ascii.eqb_refl in Hch. }
  unfold pair_key. intros H.
  destruct a as [|p|p], c as [|q|q];
    try (apply Hpos in H; [exact H|lia|lia]);
    try (now apply Hmixed in H; [|lia]);
    try (symmetry in H; now apply Hmixed in H; [|lia]).
  change (pretty (Z.neg p)) with ("-" +:+ pretty (Z.pos p)) in H.
  change (pretty (Z.neg q)) with ("-" +:+ pretty (Z.pos q)) in H.
  cbn [String.app] in H. injection H as H.
  destruct (Hpos (Z.pos p) b (Z.pos q) d ltac:(lia) ltac:(lia) H)
    as [[= ->] ->].
  auto.
Qed.

Lemma growth_step_entry seasons raw growth i :
  growth_step seasons raw growth i
  = match entry_at seasons raw i with
    | Some (key, entry) => <[key := entry]> growth
    | None => growth
    end.
Proof.
  unfold growth_step, entry_at.
  destruct (seasons !! (i - 1)%nat) as [p|]; [|reflexivity].
  destruct (seasons !! i) as [c|]; [|reflexivity].
  destruct (raw_get raw p); [|reflexivity].
  destruct (raw_get raw c); reflexivity.
Qed.

Lemma entry_at_inv seasons raw i key entry :
  entry_at seasons raw i = Some (key, entry) ->
  exists p c ps cs,
    seasons !! (i - 1)%nat = Some p /\ seasons !! i = Some c
    /\ raw_get raw p = Some ps /\ raw_get raw c = Some cs
    /\ key = pair_key p c /\ entry = season_growth ps cs.
Proof.
  unfold entry_at.
  destruct (seasons !! (i - 1)%nat) as [p|]; [|discriminate].
  destruct (seasons !! i) as [c|]; [|discriminate].
  destruct (raw_get raw p) as [ps|] eqn:Hps; [|discriminate].
  destruct (raw_get raw c) as [cs|] eqn:Hcs; [|discriminate].
  intros [= <- <-]. exists p, c, ps, cs. repeat split; assumption.
Qed.

Section GrowthLoop.

Variable seasons : list Z.
Variable raw : gmap Z (option averages).

Let step := growth_step seasons raw.

(** Every turn adds at most one key. *)
Lemma growth_loop_size (turns : list nat) : forall growth,
  (size (foldl step growth turns) <= size growth + length turns)%nat.
Proof.
  induction turns as [|i rest IH]; intros growth; cbn [foldl length].
  - lia.
  - etransitivity; [apply IH|].
    unfold step. rewrite growth_step_entry.
    destruct (entry_at seasons raw i) as [[key entry]|]; [|lia].
    rewrite map_size_insert. destruct (growth !! key); simpl; lia.
Qed.

(** A key of the result was there before or is stored by a turn. *)
Lemma growth_loop_key (turns : list nat) : forall growth key,
  is_Some (foldl step growth turns !! key) ->
  is_Some (growth !! key)
  \/ exists i entry, i ∈ turns /\ entry_at seasons raw i = Some (key, entry).
Proof.
  induction turns as [|i rest IH]; intros growth key H; cbn [foldl] in H.
  - now left.
  - apply IH in H as [H|(j & entry & Hj & E)].
    + unfold step in H. rewrite growth_step_entry in H.
      destruct (entry_at seasons raw i) as [[key' entry']|] eqn:E; [|now left].
      destruct (decide (key' = key)) as [->|Hne].
      * right. exists i, entry'. split; [apply list_elem_of_here|assumption].
      * rewrite lookup_insert_ne in H by assumption. now left.
    + right. exists j, entry.
      split; [now apply list_elem_of_further|assumption].
Qed.

(** When the turns that store a key all store the same entry, the result
    holds that entry. *)
Lemma growth_loop_entry (turns : list nat) key entry : forall growth,
  (forall i entry', i ∈ turns ->
     entry_at seasons raw i = Some (key, entry') -> entry' = entry) ->
  growth !! key = Some entry
  \/ (exists i, i ∈ turns /\ entry_at seasons raw i = Some (key, entry)) ->
  foldl step growth turns !! key = Some entry.
Proof.
  induction turns as [|i rest IH]; intros growth Hsame H; cbn [foldl].
  - destruct H as [H|(i & Hi & _)]; [assumption|].
    now apply elem_of_nil in Hi.
  - apply IH.
    { intros j entry' Hj. apply Hsame. now apply list_elem_of_further. }
    unfold step. rewrite growth_step_entry.
    destruct (entry_at seasons raw i) as [[key' entry']|] eqn:E.
    + destruct (decide (key' = key)) as [->|Hne].
      * left. rewrite lookup_insert_eq. f_equal.
        apply (Hsame i); [apply list_elem_of_here|assumption].
      * rewrite lookup_insert_ne by assumption.
        destruct H as [H|(j & Hj & Ej)]; [now left|].
        apply elem_of_cons in Hj as [->|Hj]; [congruence|].
        right. now exists j.
    + destruct H as [H|(j & Hj & Ej)]; [now left|].
      apply elem_of_cons in Hj as [->|Hj]; [congruence|].
      right. now exists j.
Qed.

End GrowthLoop.

(** C4. The growth mapping has at most [len(seasons) - 1] keys; each key
    is the key of two seasons next to each other in the list that both
    have averages; for two seasons next to each other, the key is missing
    when one of them has no averages, and otherwise maps to the growth of
    the two; and in a growth that is there, a metric whose previous value
    is missing or zero maps to [None]. *)
Theorem growth_keys (seasons : list Z) (raw : gmap Z (option averages)) :
  (size (compute_growth seasons raw) <= length seasons - 1)%nat
  /\ (forall key,
        is_Some (compute_growth seasons raw !! key) ->
        exists i prev curr,
          seasons !! i = Some prev /\ seasons !! S i = Some curr
          /\ key = pair_key prev curr
          /\ is_Some (raw_get raw prev) /\ is_Some (raw_get raw curr))
  /\ (forall i prev curr,
        seasons !! i = Some prev -> seasons !! S i = Some curr ->
        compute_growth seasons raw !! pair_key prev curr
        = match raw_get raw prev, raw_get raw curr with
          | Some prev_stats, Some curr_stats =>
              Some (season_growth prev_stats curr_stats)
          | _, _ => None
          end)
  /\ (forall prev_stats curr_stats metric,
        metric ∈ key_metrics ->
        avg prev_stats !! metric = None
        \/ avg prev_stats !! metric = Some 0%float ->
        season_growth prev_stats curr_stats !! metric = Some None).
Proof.
  unfold compute_growth.
  split; [|split; [|split]].
  - etransitivity; [apply growth_loop_size|].
    rewrite map_size_empty, length_seq. lia.
  - intros key H.
    apply growth_loop_key in H as [H|(j & entry & Hj & E)].
    { rewrite lookup_empty in H. now destruct H. }
    apply elem_of_seq in Hj.
    apply entry_at_inv in E as (p & c & ps & cs & Hp & Hc & Hps & Hcs & -> & _).
    exists (j - 1)%nat, p, c. replace (S (j - 1)) with j by lia.
    rewrite Hps, Hcs. eauto 10.
  - intros i prev curr Hi Hsi.
    assert (S i ∈ seq 1 (length seasons - 1)) as Hturn.
    { apply elem_of_seq. apply lookup_lt_Some in Hsi. lia. }
    assert (forall j key entry,
              entry_at seasons raw j = Some (key, entry) ->
              key = pair_key prev curr ->
              raw_get raw prev <> None /\ raw_get raw curr <> None
              /\ forall ps cs, raw_get raw prev = Some ps ->
                   raw_get raw curr = Some cs ->
                   entry = season_growth ps cs) as Hsame.
    { intros j key entry E Hkey.
      apply entry_at_inv in E
        as (p & c & ps & cs & Hp & Hc & Hps & Hcs & -> & ->).
      apply pair_key_inj in Hkey as [-> ->].
      rewrite Hps, Hcs. repeat split; try discriminate.
      intros ps' cs' [= ->] [= ->]. reflexivity. }
    destruct (raw_get raw prev) as [ps|] eqn:Hps;
      [destruct (raw_get raw curr) as [cs|] eqn:Hcs|].
    + apply growth_loop_entry.
      * intros j entry' _ E.
        destruct (Hsame j _ _ E eq_refl) as (_ & _ & Heq). now apply Heq.
      * right. exists (S i). split; [assumption|].
        unfold entry_at. replace (S i - 1)%nat with i by lia.
        rewrite Hi, Hsi, Hps, Hcs. reflexivity.
    + apply eq_None_not_Some. intros H.
      apply growth_loop_key in H as [H|(j & entry & _ & E)].
      { rewrite lookup_empty in H. now destruct H. }
      destruct (Hsame j _ _ E eq_refl) as (_ & Hc & _). now apply Hc.
    + apply eq_None_not_Some. intros H.
      apply growth_loop_key in H as [H|(j & entry & _ & E)].
      { rewrite lookup_empty in H. now destruct H. }
      destruct (Hsame j _ _ E eq_refl) as (Hp & _). now apply Hp.
  - intros prev_stats curr_stats metric Hm H.
    rewrite season_growth_lookup by assumption. f_equal.
    unfold metric_growth. destruct H as [-> | ->]; reflexivity.
Qed.

(** C4, for the seasons 2021, 2022 and 2023 when 2022 has no averages:
    neither key with 2022 is in the mapping. *)
Lemma growth_keys_witness :
  (size (compute_growth Samples.three_seasons Samples.gap_in_2022) <= 2)%nat
  /\ compute_growth Samples.three_seasons Samples.gap_in_2022
       !! "2021-2022"%string = None
  /\ compute_growth Samples.three_seasons Samples.gap_in_2022
       !! "2022-2023"%string = None.
Proof.
  destruct (growth_keys Samples.three_seasons Samples.gap_in_2022)
    as (Hsize & _ & Hpair & _).
  split; [exact Hsize|]. split.
  - exact (Hpair 0%nat 2021 2022 eq_refl eq_refl).
  - exact (Hpair 1%nat 2022 2023 eq_refl eq_refl).
Defined.

End GrowthFacts.

(** ** The client *)

Module ClientFacts.
Import Py Client.

Lemma bind_ok {A B} (m : M A) (k : A -> M B) w a w' :
  m w = (Ok a, w') -> bind m k w = k a w'.
Proof. unfold bind. now intros ->. Qed.

Lemma bind_raise {A B} (m : M A) (k : A -> M B) w e w' :
  m w = (Raise e, w') -> bind m k w = (Raise e, w').
Proof. unfold bind. now intros ->. Qed.

Lemma try_ok {A} (m : M A) handler w a w' :
  m w = (Ok a, w') -> try_except m handler w = (Ok a, w').
Proof. unfold try_except. now intros ->. Qed.

Lemma try_raise {A} (m : M A) handler w e w' :
  m w = (Raise e, w') -> try_except m handler w = handler e w'.
Proof. unfold try_except. now intros ->. Qed.

Section Validation.

Variable players_endpoint : world -> Z -> response (gmap string pyval).
Variable stats_endpoint : world -> Z -> option Z -> response (list stat_record).
Variable current_year : Z.

(** The loop over the seasons stops at the first one out of range, and
    calls nothing. *)
Lemma check_seasons_invalid (seasons : list Z) (w : world) :
  Exists (fun s => s < 1946 \/ current_year < s) seasons ->
  exists s,
    check_seasons current_year seasons w
    = (Raise (InvalidParameterError (BadSeason s)), w).
Proof.
  induction 1 as [s rest H|s rest H IH]; cbn [check_seasons].
  - exists s. unfold valid_season.
    replace ((1946 <=? s) && (s <=? current_year)) with false; [reflexivity|].
    symmetry. apply andb_false_iff. destruct H; [left|right]; lia.
  - destruct (valid_season current_year s); simpl.
    + exact IH.
    + now exists s.
Qed.

Lemma check_seasons_valid (seasons : list Z) (w : world) :
  Forall (fun s => 1946 <= s <= current_year) seasons ->
  check_seasons current_year seasons w = (Ok tt, w).
Proof.
  induction 1 as [|s rest H _ IH]; cbn [check_seasons]; [reflexivity|].
  unfold valid_season.
  replace ((1946 <=? s) && (s <=? current_year)) with true; [exact IH|].
  symmetry. apply andb_true_iff. lia.
Qed.

(** C5. When the player id is not positive, when there is no season, or
    when a season is below 1946 or above the current year,
    [compare_player_seasons] raises [InvalidParameterError] and the calls
    of [_request] are as before it: nothing was fetched. *)
Theorem invalid_input_rejected_before_fetch
    (player_id : Z) (seasons : list Z) (w : world) :
  player_id <= 0 \/ seasons = []
  \/ Exists (fun s => s < 1946 \/ current_year < s) seasons ->
  exists what,
    compare_player_seasons players_endpoint stats_endpoint current_year
      player_id seasons w
    = (Raise (InvalidParameterError what), w).
Proof.
  intros H. unfold compare_player_seasons.
  destruct (player_id <=? 0) eqn:Hid.
  { exists (BadPlayerId player_id). reflexivity. }
  destruct H as [H|[->|H]].
  - lia.
  - exists EmptySeasons. reflexivity.
  - destruct (check_seasons_invalid seasons w H) as [s Hs].
    exists (BadSeason s). destruct seasons as [|s0 rest].
    { inversion H. }
    erewrite try_raise; [|apply bind_raise; exact Hs].
    reflexivity.
Qed.

End Validation.

(** C5, for a player id of zero, no season, and the season 1900. *)
Lemma invalid_input_rejected_before_fetch_witness :
  (exists what,
     compare_player_seasons Samples.any_player Samples.no_stats 2025
       0 [2023] [] = (Raise (InvalidParameterError what), []))
  /\ (exists what,
        compare_player_seasons Samples.any_player Samples.no_stats 2025
          7 [] [] = (Raise (InvalidParameterError what), []))
  /\ (exists what,
        compare_player_seasons Samples.any_player Samples.no_stats 2025
          7 [1900] [] = (Raise (InvalidParameterError what), [])).
Proof.
  split; [|split].
  - apply invalid_input_rejected_before_fetch. left. lia.
  - apply invalid_input_rejected_before_fetch. right. left. reflexivity.
  - apply invalid_input_rejected_before_fetch. right. right.
    constructor. left. lia.
Defined.

(** *** Failures of the data source *)

Section Failures.

Variable players_endpoint : world -> Z -> response (gmap string pyval).
Variable stats_endpoint : world -> Z -> option Z -> response (list stat_record).
Variable current_year : Z.

Local Abbreviation compare :=
  (compare_player_seasons players_endpoint stats_endpoint current_year).

(** What [_request] raises for each answer that is not a 200: the errors
    of the statuses 401 and 429 leave it wrapped in the base exception, a
    [RequestException] leaves it as it is. *)
Lemma request_outcome {A} (req : request) (source : world -> response A) w :
  _request req source w
  = (match source w with
     | Cached body => Ok body
     | Unreachable => Raise (RequestException NetworkFailure)
     | Answer status body =>
         if status =? 401 then Raise (NBAApiException ApiKeyError)
         else if status =? 429 then Raise (NBAApiException ApiRateLimitError)
         else if status =? 200 then Ok body
         else Raise (RequestException (BadStatus status))
     end, w ++ [req]).
Proof.
  unfold _request, try_except.
  destruct (source w) as [body|status body|]; try reflexivity.
  destruct (status =? 401); [reflexivity|].
  destruct (status =? 429); [reflexivity|].
  destruct (status =? 200); reflexivity.
Qed.

(** The result of a comparison that returns: the player was fetched, the
    loop over the seasons ended, and every entry comes from it. *)
Lemma compare_returns_inv player_id seasons w r w' :
  compare player_id seasons w = (Ok r, w') ->
  exists player raw w1,
    get_player players_endpoint player_id w = (Ok player, w1)
    /\ averages_loop stats_endpoint current_year player_id seasons ∅ w1
       = (Ok raw, w')
    /\ Client.seasons r = seasons
    /\ season_averages r = kmap (pretty : Z -> string) raw
    /\ growth r = Growth.compute_growth seasons raw.
Proof.
  unfold compare_player_seasons, try_except.
  destruct (player_id <=? 0).
  { cbv [raise]. discriminate. }
  destruct seasons as [|s rest]; [cbv [raise]; discriminate|].
  set (l := s :: rest). unfold bind.
  destruct (check_seasons current_year l w) as [[[]|e] w0] eqn:Hcheck.
  2: { destruct e; cbv [raise]; discriminate. }
  assert (w0 = w) as ->.
  { clear -Hcheck. revert Hcheck. generalize l. intros l'.
    induction l' as [|x l' IH]; cbn [check_seasons].
    - cbv [ret]. congruence.
    - destruct (valid_season current_year x); simpl; [exact IH|].
      cbv [raise]. discriminate. }
  destruct (get_player players_endpoint player_id w)
    as [[player|e] w1] eqn:Hget.
  2: { destruct e; cbv [raise]; discriminate. }
  destruct (averages_loop _ _ _ l ∅ w1) as [[raw|e] w2] eqn:Hloop.
  2: { destruct e; cbv [raise]; discriminate. }
  unfold lift. destruct (summary_of player) as [summary|e].
  2: { destruct e; cbv [raise]; discriminate. }
  cbv [ret]. intros [= <- <-]. exists player, raw, w1. auto.
Qed.

(** The loop over the seasons stores an entry for every season. *)
Lemma averages_loop_covers player_id seasons : forall raw w raw' w',
  averages_loop stats_endpoint current_year player_id seasons raw w
  = (Ok raw', w') ->
  forall s, s ∈ seasons \/ is_Some (raw !! s) -> is_Some (raw' !! s).
Proof.
  induction seasons as [|s0 rest IH]; intros raw w raw' w' H s Hs;
    cbn [averages_loop] in H.
  - cbv [ret] in H. injection H as <- _.
    destruct Hs as [Hs|Hs]; [now apply elem_of_nil in Hs|assumption].
  - unfold bind in H.
    destruct (get_player_stats _ _ _ _ w) as [[stats|e] w1]; [|discriminate].
    unfold lift in H.
    destruct (Aggregator.season_average stats) as [entry|e]; [|discriminate].
    apply (IH _ _ _ _ H).
    destruct (decide (s = s0)) as [->|Hne].
    + right. rewrite lookup_insert_eq. eauto.
    + destruct Hs as [Hs|Hs].
      * apply elem_of_cons in Hs as [Hs|Hs]; [contradiction|now left].
      * right. now rewrite lookup_insert_ne.
Qed.

(** No comparison for part of the seasons: one that returns has an entry
    of averages for every requested season. *)
Lemma comparison_covers_every_season player_id seasons w r w' :
  compare player_id seasons w = (Ok r, w') ->
  Client.seasons r = seasons
  /\ forall s, s ∈ seasons -> is_Some (season_averages r !! pretty s).
Proof.
  intros H.
  apply compare_returns_inv in H as (player & raw & w1 & _ & Hloop & Hs & Ha & _).
  split; [assumption|]. intros s Hin. rewrite Ha.
  rewrite (lookup_kmap (pretty : Z -> string)).
  apply (averages_loop_covers _ _ _ _ _ _ Hloop). now left.
Qed.

(** A fetch of the player that raises ends the comparison: a
    [RequestException] or [PlayerNotFoundError] of [get_player] leaves it
    unchanged, any other exception wrapped. *)
Lemma player_failure_aborts player_id seasons w e w' :
  0 < player_id -> seasons <> [] ->
  Forall (fun s => 1946 <= s <= current_year) seasons ->
  get_player players_endpoint player_id w = (Raise e, w') ->
  compare player_id seasons w
  = (Raise (if reraised e then e else NBAApiException e), w').
Proof.
  intros Hid Hne Hvalid Hget. unfold compare_player_seasons.
  replace (player_id <=? 0) with false by lia.
  destruct seasons as [|s rest]; [contradiction|].
  erewrite try_raise.
  2: { erewrite bind_ok; [|now apply check_seasons_valid].
       apply bind_raise. exact Hget. }
  destruct e; reflexivity.
Qed.

(** Neither [ApiKeyError] nor [ApiRateLimitError] leaves [_request],
    [get_player] or [get_player_stats]. *)
Lemma request_never_auth {A} req (source : world -> response A) w e w' :
  _request req source w = (Raise e, w') -> auth_or_rate_limit e = false.
Proof.
  rewrite request_outcome. destruct (source w) as [body|status body|].
  - discriminate.
  - destruct (status =? 401); [intros [= <- _]; reflexivity|].
    destruct (status =? 429); [intros [= <- _]; reflexivity|].
    destruct (status =? 200); [discriminate|intros [= <- _]; reflexivity].
  - intros [= <- _]. reflexivity.
Qed.

Lemma get_player_never_auth player_id w e w' :
  get_player players_endpoint player_id w = (Raise e, w') ->
  auth_or_rate_limit e = false.
Proof.
  unfold get_player, try_except.
  destruct (player_id <=? 0); [intros [= <- _]; reflexivity|].
  unfold bind.
  destruct (_request _ _ w) as [[player_data|e0] w0] eqn:R.
  - destruct (bool_decide (player_data = ∅)).
    + intros [= <- _]. reflexivity.
    + discriminate.
  - apply request_never_auth in R.
    destruct e0; try discriminate; intros [= <- _]; reflexivity.
Qed.

Lemma get_player_stats_never_auth player_id season w e w' :
  get_player_stats stats_endpoint current_year player_id season w
  = (Raise e, w') ->
  auth_or_rate_limit e = false.
Proof.
  unfold get_player_stats, try_except.
  destruct (player_id <=? 0); [intros [= <- _]; reflexivity|].
  assert (forall param,
            match _request (StatsRequest player_id param)
                    (fun w => stats_endpoint w player_id param) w with
            | (Ok a, w1) => (Ok a, w1)
            | (Raise e0, w1) =>
                match e0 with
                | PlayerNotFoundError _ | InvalidParameterError _
                | ApiKeyError | ApiRateLimitError | RequestException _ =>
                    raise e0
                | _ => raise (NBAApiException e0)
                end w1
            end = (Raise e, w') -> auth_or_rate_limit e = false) as H.
  { intros param.
    destruct (_request _ _ w) as [[stats|e0] w0] eqn:R; [discriminate|].
    apply request_never_auth in R.
    destruct e0; try discriminate; intros [= <- _]; reflexivity. }
  destruct season as [s|]; [|apply H].
  destruct (negb (valid_season current_year s)).
  - intros [= <- _]. reflexivity.
  - apply H.
Qed.

Lemma averages_loop_never_auth player_id seasons : forall raw w e w',
  averages_loop stats_endpoint current_year player_id seasons raw w
  = (Raise e, w') ->
  auth_or_rate_limit e = false.
Proof.
  induction seasons as [|s rest IH]; intros raw w e w'; cbn [averages_loop].
  - discriminate.
  - unfold bind.
    destruct (get_player_stats _ _ _ _ w) as [[stats|e0] w0] eqn:G.
    2: { intros [= <- _]. eapply get_player_stats_never_auth, G. }
    unfold lift.
    destruct (Aggregator.season_average stats) as [entry|e0] eqn:S.
    + apply IH.
    + intros [= <- _].
      apply AggregatorFacts.season_average_error in S.
      destruct e0; try discriminate; reflexivity.
Qed.

(** Whatever the data source answers, the exception that leaves
    [compare_player_seasons] is neither [ApiKeyError] nor
    [ApiRateLimitError]. *)
Lemma compare_never_auth player_id seasons w e w' :
  compare player_id seasons w = (Raise e, w') ->
  auth_or_rate_limit e = false.
Proof.
  unfold compare_player_seasons, try_except.
  destruct (player_id <=? 0); [intros [= <- _]; reflexivity|].
  destruct seasons as [|s rest]; [intros [= <- _]; reflexivity|].
  set (l := s :: rest). unfold bind.
  destruct (check_seasons current_year l w) as [[[]|e0] w0] eqn:Hcheck.
  2: { assert (exists what, e0 = InvalidParameterError what) as [what ->].
       { clear -Hcheck. revert Hcheck. generalize l. intros l'.
         induction l' as [|x l' IH]; cbn [check_seasons].
         - discriminate.
         - destruct (valid_season current_year x); simpl; [exact IH|].
           intros [= <- _]. eauto. }
       intros [= <- _]. reflexivity. }
  destruct (get_player players_endpoint player_id w0)
    as [[player|e0] w1] eqn:Hget.
  2: { apply get_player_never_auth in Hget.
       destruct e0; try discriminate; intros [= <- _]; reflexivity. }
  destruct (averages_loop _ _ _ l ∅ w1) as [[raw|e0] w2] eqn:Hloop.
  2: { apply averages_loop_never_auth in Hloop.
       destruct e0; try discriminate; intros [= <- _]; reflexivity. }
  unfold lift. destruct (summary_of player) as [summary|e0] eqn:Hsum.
  - discriminate.
  - assert (e0 = AttributeError) as ->.
    { unfold summary_of in Hsum.
      destruct (player !! "team"%string) as [[]|]; simpl in Hsum; congruence. }
    intros [= <- _]. reflexivity.
Qed.

End Failures.

(** C7. With a valid player id and season, an answer 401 to the request
    for the player leaves [compare_player_seasons] as an
    [NBAApiException] wrapped three times around the [ApiKeyError], and
    an answer 429 to the request for the second season as one around the
    [ApiRateLimitError]; in both cases nothing is returned.  A request
    that fails with a [RequestException] leaves it unchanged.  Whatever
    the data source answers, [compare_player_seasons] raises neither
    [ApiKeyError] nor [ApiRateLimitError]. *)
Theorem auth_and_rate_limit_failures_are_wrapped :
  (forall players_endpoint stats_endpoint current_year player_id seasons
          w e w',
     compare_player_seasons players_endpoint stats_endpoint current_year
       player_id seasons w = (Raise e, w') ->
     e <> ApiKeyError /\ e <> ApiRateLimitError)
  /\ compare_player_seasons Samples.unauthorized Samples.no_stats 2025
    1 [2023] []
  = (Raise (NBAApiException (NBAApiException (NBAApiException ApiKeyError))),
     [PlayerRequest 1])
  /\ compare_player_seasons Samples.any_player Samples.rate_limited 2025
       1 [2022; 2023] []
     = (Raise (NBAApiException
                 (NBAApiException (NBAApiException ApiRateLimitError))),
        [PlayerRequest 1; StatsRequest 1 (Some 2022);
         StatsRequest 1 (Some 2023)])
  /\ compare_player_seasons (fun _ _ => Unreachable) Samples.no_stats 2025
       1 [2023] []
     = (Raise (RequestException NetworkFailure), [PlayerRequest 1]).
Proof.
  split; [|repeat split; vm_compute; reflexivity].
  intros players_endpoint stats_endpoint current_year player_id seasons
         w e w' H.
  apply compare_never_auth in H. split; intros ->; discriminate.
Qed.

(** *** The seasons of a player *)

(** The seasons collected are those already there and those of the
    entries. *)
Lemma elem_of_collect_seasons (data : list stat_record) (s : Z) :
  s ∈ collect_seasons data
  <-> exists stat game,
        stat ∈ data /\ stat_game stat = Some game /\ season game = Some s.
Proof.
  unfold collect_seasons.
  set (add := fun (seasons : gset Z) (stat : stat_record) =>
                match stat_game stat with
                | Some game =>
                    match season game with
                    | Some s => {[s]} ∪ seasons
                    | None => seasons
                    end
                | None => seasons
                end).
  assert (forall acc : gset Z,
            s ∈ foldl add acc data
            <-> s ∈ acc
                \/ exists stat game,
                     stat ∈ data /\ stat_game stat = Some game
                     /\ season game = Some s) as G.
  { induction data as [|stat rest IH]; intros acc; cbn [foldl].
    - split; [now left|]. intros [H|(stat & game & H & _)]; [assumption|].
      now apply elem_of_nil in H.
    - rewrite IH. split.
      + intros [H|(stat' & game & H & Hg & Hs)].
        * unfold add in H.
          destruct (stat_game stat) as [game|] eqn:Hg; [|now left].
          destruct (season game) as [s'|] eqn:Hs; [|now left].
          apply elem_of_union in H as [H|H]; [|now left].
          apply elem_of_singleton in H as ->.
          right. exists stat, game. split; [apply list_elem_of_here|auto].
        * right. exists stat', game.
          split; [now apply list_elem_of_further|auto].
      + intros [H|(stat' & game & H & Hg & Hs)].
        * left. unfold add. destruct (stat_game stat) as [game|]; [|assumption].
          destruct (season game); [|assumption].
          apply elem_of_union. now right.
        * apply elem_of_cons in H as [->|H].
          -- left. unfold add. rewrite Hg, Hs.
             apply elem_of_union. left. now apply elem_of_singleton.
          -- right. exists stat', game. auto. }
  rewrite G. split; [|now right].
  intros [H|H]; [|assumption]. now apply not_elem_of_empty in H.
Qed.

(** A list in order without duplicates is in strict order. *)
Lemma sorted_nodup_strict (l : list Z) :
  StronglySorted Z.le l -> NoDup l -> StronglySorted Z.lt l.
Proof.
  induction 1 as [|x l Hl IH Hx]; intros Hnd; constructor.
  - apply IH. now apply NoDup_cons in Hnd as [_ ?].
  - apply NoDup_cons in Hnd as [Hout _].
    apply Forall_forall. intros y Hy.
    pose proof (proj1 (Forall_forall _ _) Hx y Hy).
    assert (x <> y) by (intros ->; contradiction).
    lia.
Qed.

(** C9. [get_player_seasons] makes one request for all the stats of the
    player and, when it answers, returns the seasons of its entries in
    strictly ascending order: the list is sorted, no season is in it
    twice, and its seasons are exactly those of the entries that have a
    game with a season.  When the request raises, so does it. *)
Theorem player_seasons_sorted_distinct
    (stats_endpoint : world -> Z -> option Z -> response (list stat_record))
    (player_id : Z) (w : world) :
  get_player_seasons stats_endpoint player_id w
  = (match _request (StatsRequest player_id None)
             (fun w => stats_endpoint w player_id None) w with
     | (Ok data, w') => (Ok (sorted_seasons (collect_seasons data)), w')
     | (Raise e, w') => (Raise e, w')
     end)
  /\ forall data,
       StronglySorted Z.lt (sorted_seasons (collect_seasons data))
       /\ NoDup (sorted_seasons (collect_seasons data))
       /\ forall s,
            s ∈ sorted_seasons (collect_seasons data)
            <-> exists stat game,
                  stat ∈ data /\ stat_game stat = Some game
                  /\ season game = Some s.
Proof.
  split.
  - unfold get_player_seasons, try_except, bind.
    destruct (_request _ _ w) as [[data|e] w']; reflexivity.
  - intros data. unfold sorted_seasons.
    assert (NoDup (merge_sort Z.le (elements (collect_seasons data)))) as Hnd.
    { rewrite merge_sort_Permutation. apply NoDup_elements. }
    split; [|split].
    + apply sorted_nodup_strict; [|assumption].
      apply StronglySorted_merge_sort; apply _.
    + assumption.
    + intros s. rewrite merge_sort_Permutation, elem_of_elements.
      apply elem_of_collect_seasons.
Qed.

(** *** A comparison from end to end *)

(** The seasons 2021, 2022 and 2023 when 2022 has no stat entry: the
    averages of 2022 are [None], those of 2021 count one game, no key is
    in the growth, and one request is made for the player and one for each
    season, in order. *)
Example comparison_with_empty_season :
  exists r,
    compare_player_seasons Samples.any_player Samples.nothing_in_2022 2025
      1 Samples.three_seasons []
    = (Ok r,
       [PlayerRequest 1; StatsRequest 1 (Some 2021);
        StatsRequest 1 (Some 2022); StatsRequest 1 (Some 2023)])
    /\ season_averages r !! "2022"%string = Some None
    /\ option_map games_played <$> season_averages r !! "2021"%string
       = Some (Some 1%nat)
    /\ growth r = ∅
    /\ id (player r) = PInt 1.
Proof.
  eexists. split; [vm_compute; reflexivity|].
  repeat split; vm_compute; reflexivity.
Qed.

End ClientFacts.

(** ** The totals of a season *)

Module TotalsFacts.
Import Py Aggregator Totals.

Lemma parses_up_to_elem keys game key :
  parses_up_to keys game key = true -> key ∈ keys.
Proof.
  induction keys as [|k rest IH]; cbn [parses_up_to]; [discriminate|].
  destruct (String.eqb k "games_played").
  { intros H. apply list_elem_of_further. auto. }
  destruct (contribution k game); [|discriminate].
  intros [H|H]%orb_true_iff.
  - apply String.eqb_eq in H as ->. apply list_elem_of_here.
  - apply list_elem_of_further. auto.
Qed.

(** The totals after the loop over the keys of one game. *)
Lemma game_loop_totals keys game key : forall totals totals' valid_game,
  NoDup keys ->
  game_loop keys game totals = Ok (totals', valid_game) ->
  totals' !! key
  = match share_in keys game key with
    | Some x => Some (totals !!! key + x)%float
    | None => totals !! key
    end.
Proof.
  unfold share_in.
  induction keys as [|k rest IH]; intros totals totals' valid_game Hnd;
    cbn [game_loop parses_up_to].
  - intros [= <- _]. reflexivity.
  - apply NoDup_cons in Hnd as [Hk Hnd].
    destruct (String.eqb k "games_played"); [now apply IH|].
    rewrite AggregatorFacts.add_stat_contribution.
    destruct (contribution k game) as [c|e] eqn:C; cbn [rbind].
    2: { destruct (is_parse_error e); [|discriminate].
         intros [= <- _]. reflexivity. }
    intros H. rewrite (IH _ _ _ Hnd H).
    destruct (String.eqb k key) eqn:E.
    + apply String.eqb_eq in E as ->. cbn [orb].
      destruct (parses_up_to rest game key) eqn:P.
      { apply parses_up_to_elem in P. contradiction. }
      unfold value_of. rewrite C.
      destruct c as [x|]; [|reflexivity].
      unfold add_to. now rewrite lookup_insert_eq.
    + apply String.eqb_neq in E. cbn [orb].
      assert (match c with
              | Some x => add_to k x totals
              | None => totals
              end !! key = totals !! key) as Hsame.
      { destruct c; [|reflexivity]. unfold add_to.
        now rewrite lookup_insert_ne. }
      unfold lookup_total, map_lookup_total. rewrite Hsame. reflexivity.
Qed.

Lemma totals_keys_nodup : NoDup totals_keys.
Proof. apply (bool_decide_unpack _). vm_compute. exact I. Qed.

(** The totals after the loop over the games. *)
Lemma stats_loop_totals stats key : forall totals n totals' n' v,
  stats_loop stats totals n = Ok (totals', n') ->
  totals !! key = Some v ->
  totals' !! key
  = Some (foldl
            (fun acc game =>
               match share_in totals_keys (stat_fields game) key with
               | Some x => (acc + x)%float
               | None => acc
               end)
            v stats).
Proof.
  induction stats as [|game rest IH]; intros totals n totals' n' v;
    cbn [stats_loop foldl].
  - intros [= <- _]. auto.
  - destruct (game_loop totals_keys (stat_fields game) totals)
      as [[t valid_game]|e] eqn:G; cbn [rbind]; [|discriminate].
    intros H Hv. apply (IH _ _ _ _ _ H).
    rewrite (game_loop_totals _ _ key _ _ _ totals_keys_nodup G).
    rewrite (lookup_total_correct _ _ _ Hv), Hv.
    destruct (share_in totals_keys (stat_fields game) key); reflexivity.
Qed.

Lemma ten_keys_cases (key : string) :
  key ∈ numeric_keys \/ key = "min"%string ->
  key ∈ totals_keys /\ key <> "games_played"%string
  /\ initial_totals !! key = Some 0%float.
Proof.
  intros [H| ->]; [|repeat split; [|discriminate];
                    unfold totals_keys; rewrite !elem_of_cons; tauto].
  unfold numeric_keys in H. rewrite !elem_of_cons, elem_of_nil in H.
  repeat destruct H as [->|H]; try contradiction;
    (repeat split; [|discriminate];
     unfold totals_keys; rewrite !elem_of_cons; tauto).
Qed.

(** X1. Each average of a season is a sum over all its records divided by
    the number of valid ones, where a record, valid or not, adds its value
    for a key exactly when that key and every key before it in the order
    pts, reb, ast, stl, blk, turnover, fg_pct, fg3_pct, ft_pct, min
    parse. *)
Theorem averages_sum_parsed_prefixes
    (stats : list stat_record) (a : averages) (key : string) :
  season_average stats = Ok (Some a) ->
  key ∈ numeric_keys \/ key = "min"%string ->
  avg a !! key
  = Some (total_of key stats / float_of_count (count_valid stats))%float.
Proof.
  intros H Hkey. destruct (ten_keys_cases key Hkey) as (_ & _ & Hinit).
  unfold season_average in H. destruct stats as [|g rest]; [discriminate|].
  change (Nat.eqb (length (g :: rest)) 0) with false in H. cbv iota in H.
  destruct (stats_loop (g :: rest) initial_totals 0)
    as [[totals n]|e] eqn:L; cbn [rbind] in H; [|discriminate].
  destruct (0 <? n)%nat; [|discriminate].
  injection H as <-. unfold averages_of. cbn [avg].
  rewrite lookup_fmap, (stats_loop_totals _ key _ _ _ _ _ L Hinit).
  apply AggregatorFacts.stats_loop_counts in L as ->. reflexivity.
Qed.

(** X1, for the points of the two sample records. *)
Lemma averages_sum_parsed_prefixes_witness :
  exists a,
    season_average [Samples.full_game; Samples.bad_minutes_game]
    = Ok (Some a)
    /\ avg a !! "pts"%string
       = Some (total_of "pts"
                 [Samples.full_game; Samples.bad_minutes_game]
               / float_of_count
                   (count_valid
                      [Samples.full_game; Samples.bad_minutes_game]))%float.
Proof.
  eexists. split; [vm_compute; reflexivity|].
  apply averages_sum_parsed_prefixes; [vm_compute; reflexivity|].
  left. apply list_elem_of_here.
Defined.

(** A valid record parses at every key. *)
Lemma valid_record_parses keys game key :
  game_status keys game = Ok true ->
  key ∈ keys -> key <> "games_played"%string ->
  parses_up_to keys game key = true.
Proof.
  intros Hs Hin Hne. induction keys as [|k rest IH];
    cbn [game_status parses_up_to] in *.
  - now apply elem_of_nil in Hin.
  - destruct (String.eqb k "games_played") eqn:G.
    + apply String.eqb_eq in G as ->.
      apply elem_of_cons in Hin as [->|Hin]; [contradiction|auto].
    + destruct (contribution k game) as [c|e].
      * apply elem_of_cons in Hin as [->|Hin].
        -- now rewrite String.eqb_refl.
        -- rewrite IH by assumption. apply orb_true_r.
      * destruct (is_parse_error e); discriminate.
Qed.

(** X2. When every record of a season is valid, the aggregation returns
    averages, [games_played] is the number of records, and each of the
    ten averages is the sum of the records' values, in their order, over
    that number. *)
Theorem all_valid_means (stats : list stat_record) :
  stats <> [] ->
  (forall game, game ∈ stats -> valid_record game = true) ->
  exists a,
    season_average stats = Ok (Some a)
    /\ games_played a = length stats
    /\ forall key,
         key ∈ numeric_keys \/ key = "min"%string ->
         avg a !! key
         = Some (sum_of key stats / float_of_count (length stats))%float.
Proof.
  intros Hne Hvalid.
  assert (count_valid stats = length stats) as Hcount.
  { clear Hne. induction stats as [|g rest IH]; [reflexivity|].
    cbn [count_valid length]. rewrite Hvalid by apply list_elem_of_here.
    rewrite IH; [reflexivity|].
    intros g' Hg'. apply Hvalid. now apply list_elem_of_further. }
  destruct (AggregatorFacts.stats_loop_completes stats initial_totals 0)
    as [totals Hloop].
  { intros game Hin. specialize (Hvalid game Hin).
    unfold valid_record in Hvalid. unfold aborts.
    destruct (game_status totals_keys (stat_fields game)); congruence. }
  assert (season_average stats
          = Ok (Some (averages_of totals (length stats) (length stats))))
    as Havg.
  { unfold season_average. destruct stats as [|g rest]; [contradiction|].
    change (Nat.eqb (length (g :: rest)) 0) with false. cbv iota.
    rewrite Hloop. cbn [rbind]. rewrite Hcount. reflexivity. }
  eexists. split; [exact Havg|]. split; [reflexivity|].
  intros key Hkey.
  destruct (ten_keys_cases key Hkey) as (Hin & Hgp & Hinit).
  unfold averages_of. cbn [avg].
  rewrite lookup_fmap, (stats_loop_totals _ key _ _ _ _ _ Hloop Hinit).
  cbn [fmap option_fmap option_map]. do 2 f_equal. unfold sum_of.
  clear -Hvalid Hin Hgp. generalize 0%float.
  induction stats as [|g rest IH]; intros acc; cbn [foldl]; [reflexivity|].
  assert (share_in totals_keys (stat_fields g) key
          = value_of (stat_fields g) key) as ->.
  { unfold share_in. rewrite valid_record_parses; auto.
    specialize (Hvalid g (list_elem_of_here _ _)).
    unfold valid_record in Hvalid.
    destruct (game_status totals_keys (stat_fields g)) as [[]|];
      congruence. }
  apply IH. intros g' Hg'. apply Hvalid. now apply list_elem_of_further.
Qed.

(** X2, for a season of the one sample record that is valid. *)
Lemma all_valid_means_witness :
  exists a,
    season_average [Samples.full_game] = Ok (Some a)
    /\ games_played a = 1%nat
    /\ forall key,
         key ∈ numeric_keys \/ key = "min"%string ->
         avg a !! key
         = Some (sum_of key [Samples.full_game] / float_of_count 1)%float.
Proof.
  apply (all_valid_means [Samples.full_game]); [discriminate|].
  intros game Hin. apply elem_of_cons in Hin as [->|Hin].
  - vm_compute. reflexivity.
  - now apply elem_of_nil in Hin.
Defined.

End TotalsFacts.

(** ** Records in the loop over the games *)

Module RecordFacts.
Import Py Aggregator Totals Records.

Lemma number_passes_contribution game key :
  key ∈ numeric_keys -> number_passes game key = true ->
  exists c, contribution key game = Ok c.
Proof.
  intros Hkey.
  destruct (AggregatorFacts.numeric_key_cases key Hkey) as [Hmin _].
  unfold number_passes, contribution. rewrite Hmin.
  destruct (default (PInt 0) (game !! key)); cbn [float_of];
    try (destruct (float_of_int _)); try (destruct (float_of_str _));
    cbn [rbind]; try discriminate; eauto.
Qed.

Lemma numbers_pass_contribution game key :
  numbers_pass game = true -> key ∈ numeric_keys ->
  exists c, contribution key game = Ok c.
Proof.
  intros Hpass Hkey. apply number_passes_contribution; [assumption|].
  unfold numbers_pass in Hpass. rewrite forallb_forall in Hpass.
  apply Hpass. now apply list_elem_of_In.
Qed.

Lemma contribution_minutes game :
  contribution "min" game
  = rbind (minutes_of (min_str game)) (fun x => Ok (Some x)).
Proof. reflexivity. Qed.

Ltac pass_numbers Hpass :=
  repeat match goal with
  | |- context [contribution ?k ?game] =>
      lazymatch k with
      | "min"%string => fail
      | _ =>
          let c := fresh "c" in
          let E := fresh "E" in
          destruct (numbers_pass_contribution game k Hpass) as [c E];
          [unfold numeric_keys; rewrite !elem_of_cons; tauto | rewrite E]
      end
  end.

(** Past the numeric fields, the minutes decide. *)
Lemma game_status_after_numbers game :
  numbers_pass game = true ->
  game_status totals_keys game
  = match minutes_of (min_str game) with
    | Ok _ => Ok true
    | Raise e => if is_parse_error e then Ok false else Raise e
    end.
Proof.
  intros Hpass. unfold totals_keys.
  cbn [game_status String.eqb Ascii.eqb Bool.eqb].
  pass_numbers Hpass.
  rewrite contribution_minutes.
  destruct (minutes_of (min_str game)); reflexivity.
Qed.

Lemma parses_up_to_minutes game :
  numbers_pass game = true ->
  parses_up_to totals_keys game "min"
  = match minutes_of (min_str game) with
    | Ok _ => true
    | Raise _ => false
    end.
Proof.
  intros Hpass. unfold totals_keys.
  cbn [parses_up_to String.eqb Ascii.eqb Bool.eqb orb].
  pass_numbers Hpass.
  rewrite contribution_minutes.
  destruct (minutes_of (min_str game)); reflexivity.
Qed.

(** What the loop over the keys does with a record whose numeric fields
    pass: it adds the decoded minutes and the record is valid; or the
    minutes raise a parse error, nothing is added to the minutes and the
    record is not valid; or the minutes raise another exception, which
    leaves the loop. *)
Lemma record_outcome (g : stat_record) (totals : gmap string float) :
  numbers_pass (stat_fields g) = true ->
  match minutes_of (min_str (stat_fields g)) with
  | Ok x =>
      exists totals',
        game_loop totals_keys (stat_fields g) totals = Ok (totals', true)
        /\ totals' !! "min"%string
           = Some (totals !!! "min"%string + x)%float
  | Raise e =>
      if is_parse_error e then
        exists totals',
          game_loop totals_keys (stat_fields g) totals = Ok (totals', false)
          /\ totals' !! "min"%string = totals !! "min"%string
      else game_loop totals_keys (stat_fields g) totals = Raise e
  end.
Proof.
  intros Hpass.
  pose proof (AggregatorFacts.game_loop_status totals_keys (stat_fields g)
                totals) as Hstatus.
  rewrite (game_status_after_numbers _ Hpass) in Hstatus.
  pose proof (fun totals' v =>
                TotalsFacts.game_loop_totals totals_keys (stat_fields g)
                  "min" totals totals' v TotalsFacts.totals_keys_nodup)
    as Htotals.
  unfold share_in, value_of in Htotals.
  rewrite (parses_up_to_minutes _ Hpass), contribution_minutes in Htotals.
  destruct (minutes_of (min_str (stat_fields g))) as [x|e].
  - destruct (game_loop totals_keys (stat_fields g) totals)
      as [[totals' v]|e']; [|discriminate].
    injection Hstatus as Hv. subst v. exists totals'. split; [reflexivity|].
    apply (Htotals totals' true). reflexivity.
  - destruct (is_parse_error e).
    + destruct (game_loop totals_keys (stat_fields g) totals)
        as [[totals' v]|e']; [|discriminate].
      injection Hstatus as Hv. subst v. exists totals'. split; [reflexivity|].
      apply (Htotals totals' false). reflexivity.
    + destruct (game_loop totals_keys (stat_fields g) totals)
        as [[totals' v]|e']; [discriminate|]. congruence.
Qed.

(** A record the loop over the keys gets through is one turn of the loop
    over the games: [valid_games] goes up by one when it is valid. *)
Lemma stats_loop_turn (g : stat_record) totals totals' valid_game :
  game_loop totals_keys (stat_fields g) totals = Ok (totals', valid_game) ->
  forall rest n,
    stats_loop (g :: rest) totals n
    = stats_loop rest totals' (if valid_game then S n else n).
Proof. intros H rest n. cbn [stats_loop]. rewrite H. reflexivity. Qed.

(** A field that is [None] leaves its total as it is. *)
Lemma null_field_keeps_total (g : stat_record) key totals totals' valid_game :
  key ∈ numeric_keys -> stat_fields g !! key = Some PNone ->
  game_loop totals_keys (stat_fields g) totals = Ok (totals', valid_game) ->
  totals' !! key = totals !! key.
Proof.
  intros Hkey Hnull H.
  rewrite (TotalsFacts.game_loop_totals _ _ key _ _ _
             TotalsFacts.totals_keys_nodup H).
  unfold share_in, value_of, contribution.
  destruct (AggregatorFacts.numeric_key_cases key Hkey) as [-> _].
  rewrite Hnull. cbn [default from_option id].
  destruct (parses_up_to totals_keys (stat_fields g) key); reflexivity.
Qed.

(** *** What the aggregation returns *)







(** *** The minutes of a record *)



(** *** Null and absent fields of a record *)

(** C10. A record whose minutes are present but null never counts as
    valid; when its numeric fields pass, the loop over the games goes on
    past it with nothing added to the minutes and [valid_games] as it
    was.  A numeric field that is present but null leaves its total as
    it is and the record counts as valid when its other fields parse;
    absent minutes add 0.0 to the minutes of a record that counts as
    valid.  A season of a record with null minutes and a valid record
    has its averages over 1 with 2 games played, and a season of one
    record with null numeric fields and no minutes has averages, all
    0.0. *)
Theorem null_minutes_skip_null_numbers_count :
  (forall (g : stat_record) (totals totals' : gmap string float),
     stat_fields g !! "min"%string = Some PNone ->
     game_loop totals_keys (stat_fields g) totals <> Ok (totals', true))
  /\ (forall (g : stat_record) (totals : gmap string float),
        stat_fields g !! "min"%string = Some PNone ->
        numbers_pass (stat_fields g) = true ->
        exists totals',
          totals' !! "min"%string = totals !! "min"%string
          /\ forall rest n,
               stats_loop (g :: rest) totals n = stats_loop rest totals' n)
  /\ (forall (g : stat_record) (totals : gmap string float) key x,
        key ∈ numeric_keys -> stat_fields g !! key = Some PNone ->
        numbers_pass (stat_fields g) = true ->
        minutes_of (min_str (stat_fields g)) = Ok x ->
        exists totals',
          totals' !! key = totals !! key
          /\ forall rest n,
               stats_loop (g :: rest) totals n
               = stats_loop rest totals' (S n))
  /\ (forall (g : stat_record) (totals : gmap string float),
        stat_fields g !! "min"%string = None ->
        numbers_pass (stat_fields g) = true ->
        exists totals',
          totals' !! "min"%string
          = Some (totals !!! "min"%string + 0)%float
          /\ forall rest n,
               stats_loop (g :: rest) totals n
               = stats_loop rest totals' (S n))
  /\ (exists a,
        season_average [Samples.null_minutes_game; Samples.full_game]
        = Ok (Some a)
        /\ avg a !! "min"%string = Some 30%float
        /\ games_played a = 2%nat)
  /\ (exists a,
        season_average [Samples.null_numbers_game] = Ok (Some a)
        /\ avg a !! "pts"%string = Some 0%float
        /\ avg a !! "min"%string = Some 0%float
        /\ games_played a = 1%nat).
Proof.
  split; [|split; [|split; [|split; [|split]]]].
  - intros g totals totals' Hmin H.
    apply AggregatorFacts.game_loop_valid_record in H as [H _].
    rewrite (AggregatorFacts.raising_minutes_invalidate g TypeError) in H;
      [discriminate|].
    rewrite Hmin. reflexivity.
  - intros g totals Hmin Hpass.
    pose proof (record_outcome g totals Hpass) as Hout.
    unfold min_str in Hout. rewrite Hmin in Hout.
    cbn [default from_option id minutes_of colon_in rbind is_parse_error]
      in Hout.
    destruct Hout as (totals' & Hloop & Htotal).
    exists totals'. split; [exact Htotal|].
    apply (stats_loop_turn g totals totals' false Hloop).
  - intros g totals key x Hkey Hnull Hpass Hminutes.
    pose proof (record_outcome g totals Hpass) as Hout.
    rewrite Hminutes in Hout. destruct Hout as (totals' & Hloop & _).
    exists totals'. split.
    + apply (null_field_keeps_total g key totals totals' true Hkey Hnull
               Hloop).
    + apply (stats_loop_turn g totals totals' true Hloop).
  - intros g totals Hmin Hpass.
    pose proof (record_outcome g totals Hpass) as Hout.
    unfold min_str in Hout. rewrite Hmin in Hout.
    cbn [default from_option id] in Hout.
    change (minutes_of (PStr "0:0")) with (Ok 0%float : result float)
      in Hout.
    destruct Hout as (totals' & Hloop & Htotal).
    exists totals'. split; [exact Htotal|].
    apply (stats_loop_turn g totals totals' true Hloop).
  - eexists. split; [vm_compute; reflexivity|].
    split; vm_compute; reflexivity.
  - eexists. split; [vm_compute; reflexivity|].
    split; [|split]; vm_compute; reflexivity.
Qed.

(** C10, on the record with null minutes and the one with null
    numbers. *)
Lemma null_minutes_skip_null_numbers_count_witness :
  (exists totals',
     totals' !! "min"%string = initial_totals !! "min"%string
     /\ forall rest n,
          stats_loop (Samples.null_minutes_game :: rest) initial_totals n
          = stats_loop rest totals' n)
  /\ (exists totals',
        totals' !! "pts"%string = initial_totals !! "pts"%string
        /\ forall rest n,
             stats_loop (Samples.null_numbers_game :: rest) initial_totals n
             = stats_loop rest totals' (S n))
  /\ (exists totals',
        totals' !! "min"%string
        = Some (initial_totals !!! "min"%string + 0)%float
        /\ forall rest n,
             stats_loop (Samples.null_numbers_game :: rest) initial_totals n
             = stats_loop rest totals' (S n)).
Proof.
  destruct null_minutes_skip_null_numbers_count
    as (_ & Hnull & Hnumber & Habsent & _).
  split; [|split].
  - apply Hnull; [reflexivity|vm_compute; reflexivity].
  - apply (Hnumber Samples.null_numbers_game initial_totals
             "pts"%string 0%float).
    + apply list_elem_of_here.
    + reflexivity.
    + vm_compute. reflexivity.
    + vm_compute. reflexivity.
  - apply Habsent; [reflexivity|vm_compute; reflexivity].
Defined.

End RecordFacts.

(** ** The calls and the exceptions of the client *)

Module CallsFacts.
Import Py Client Calls.

Section Calls.

Variable players_endpoint : world -> Z -> response (gmap string pyval).
Variable stats_endpoint : world -> Z -> option Z -> response (list stat_record).
Variable current_year : Z.

Local Abbreviation compare :=
  (compare_player_seasons players_endpoint stats_endpoint current_year).
Local Abbreviation player_stats :=
  (get_player_stats stats_endpoint current_year).

(** Every call of [_request] is added to the calls, whatever it meets. *)
Lemma request_logged {A} req (source : world -> response A) w :
  snd (_request req source w) = w ++ [req].
Proof. rewrite ClientFacts.request_outcome. reflexivity. Qed.

Lemma request_leaves {A} req (source : world -> response A) w e w' :
  _request req source w = (Raise e, w') -> leaves_request e = true.
Proof.
  rewrite ClientFacts.request_outcome.
  destruct (source w) as [body|status body|]; [discriminate| |].
  - destruct (status =? 401); [intros [= <- _]; reflexivity|].
    destruct (status =? 429); [intros [= <- _]; reflexivity|].
    destruct (status =? 200); [discriminate|intros [= <- _]; reflexivity].
  - intros [= <- _]. reflexivity.
Qed.

(** [get_player] in full: the check of the id, the request, and the two
    layers of [except] clauses. *)
Lemma get_player_unfold player_id w :
  get_player players_endpoint player_id w
  = if player_id <=? 0
    then (Raise (NBAApiException
                   (InvalidParameterError (BadPlayerId player_id))), w)
    else
      match _request (PlayerRequest player_id)
              (fun w => players_endpoint w player_id) w with
      | (Ok player_data, w') =>
          if bool_decide (player_data = ∅)
          then (Raise (PlayerNotFoundError player_id), w')
          else (Ok player_data, w')
      | (Raise e, w') =>
          (Raise match e with
                 | RequestException _ => e
                 | _ => NBAApiException e
                 end, w')
      end.
Proof.
  unfold get_player, try_except.
  destruct (player_id <=? 0); [reflexivity|]. unfold bind.
  destruct (_request _ _ w) as [[player_data|e] w'] eqn:R.
  - destruct (bool_decide (player_data = ∅)); reflexivity.
  - apply request_leaves in R.
    destruct e; try discriminate; reflexivity.
Qed.

Lemma get_player_logged player_id w :
  snd (get_player players_endpoint player_id w)
  = if player_id <=? 0 then w else w ++ [PlayerRequest player_id].
Proof.
  rewrite get_player_unfold.
  destruct (player_id <=? 0); [reflexivity|].
  pose proof (request_logged (PlayerRequest player_id)
                (fun w => players_endpoint w player_id) w) as Hlog.
  destruct (_request _ _ w) as [[player_data|e] w'];
    [destruct (bool_decide (player_data = ∅))|]; exact Hlog.
Qed.

(** X4. [get_player] returns only data that is not empty, raises only
    [PlayerNotFoundError], [RequestException] or [NBAApiException] (a
    player id that is not positive gives the last one, around the
    [InvalidParameterError]), and makes one request unless the id is
    not positive, in which case it makes none. *)
Theorem get_player_outcomes (player_id : Z) (w : world) :
  match fst (get_player players_endpoint player_id w) with
  | Ok player_data => 0 < player_id /\ player_data <> ∅
  | Raise e =>
      leaves_get_player e = true
      /\ (player_id <= 0 <->
          e = NBAApiException (InvalidParameterError (BadPlayerId player_id)))
  end
  /\ snd (get_player players_endpoint player_id w)
     = if player_id <=? 0 then w else w ++ [PlayerRequest player_id].
Proof.
  rewrite get_player_unfold.
  destruct (player_id <=? 0) eqn:Hid.
  { cbn [fst snd]. repeat split; auto. lia. }
  pose proof (request_logged (PlayerRequest player_id)
                (fun w => players_endpoint w player_id) w) as Hlog.
  destruct (_request _ _ w) as [[player_data|e] w'] eqn:R; cbn [snd] in Hlog.
  - destruct (bool_decide (player_data = ∅)) eqn:D; cbn [fst snd].
    + repeat split; auto; [lia|discriminate].
    + apply bool_decide_eq_false in D. repeat split; auto. lia.
  - cbn [fst snd]. split; [|assumption].
    pose proof (request_leaves _ _ _ _ _ R) as Hl.
    split.
    + destruct e; try discriminate; reflexivity.
    + split; [lia|]. intros H. exfalso.
      destruct e; discriminate.
Qed.

Lemma get_player_stats_unfold player_id season w :
  player_stats player_id season w
  = if stats_input_ok current_year player_id season then
      match _request (StatsRequest player_id season)
              (fun w => stats_endpoint w player_id season) w with
      | (Ok stats, w') => (Ok stats, w')
      | (Raise e, w') =>
          (Raise match e with
                 | RequestException _ => e
                 | _ => NBAApiException e
                 end, w')
      end
    else
      (Raise (InvalidParameterError
                (if player_id <=? 0 then BadPlayerId player_id
                 else BadSeason (default 0 season))), w).
Proof.
  unfold get_player_stats, stats_input_ok, try_except.
  destruct (player_id <=? 0) eqn:Hid.
  { replace (0 <? player_id) with false by lia. reflexivity. }
  replace (0 <? player_id) with true by lia. cbn [andb].
  assert (forall param,
            match _request (StatsRequest player_id param)
                    (fun w => stats_endpoint w player_id param) w with
            | (Ok a, w1) => (Ok a, w1)
            | (Raise e0, w1) =>
                match e0 with
                | PlayerNotFoundError _ | InvalidParameterError _
                | ApiKeyError | ApiRateLimitError | RequestException _ =>
                    raise e0
                | _ => raise (NBAApiException e0)
                end w1
            end
            = match _request (StatsRequest player_id param)
                      (fun w => stats_endpoint w player_id param) w with
              | (Ok stats, w') => (Ok stats, w')
              | (Raise e, w') =>
                  (Raise match e with
                         | RequestException _ => e
                         | _ => NBAApiException e
                         end, w')
              end) as H.
  { intros param.
    destruct (_request _ _ w) as [[stats|e] w'] eqn:R; [reflexivity|].
    apply request_leaves in R. destruct e; try discriminate; reflexivity. }
  destruct season as [s|]; [|apply H].
  destruct (valid_season current_year s) eqn:V; cbn [negb]; [|reflexivity].
  replace (s =? 0) with false; [apply H|].
  unfold valid_season in V. apply andb_true_iff in V. lia.
Qed.

Lemma get_player_stats_logged player_id season w :
  snd (player_stats player_id season w)
  = if stats_input_ok current_year player_id season
    then w ++ [StatsRequest player_id season]
    else w.
Proof.
  rewrite get_player_stats_unfold.
  destruct (stats_input_ok current_year player_id season); [|reflexivity].
  pose proof (request_logged (StatsRequest player_id season)
                (fun w => stats_endpoint w player_id season) w) as Hlog.
  destruct (_request _ _ w) as [[stats|e] w']; exact Hlog.
Qed.

(** X5. [get_player_stats] raises [InvalidParameterError], and makes no
    request, exactly when the player id is not positive or the season is
    outside 1946 to the current year; otherwise it makes one request, for
    that player and season, and returns its data or raises a
    [RequestException] or an [NBAApiException]. *)
Theorem get_player_stats_outcomes
    (player_id : Z) (season : option Z) (w : world) :
  (stats_input_ok current_year player_id season = false <->
   exists what,
     fst (player_stats player_id season w)
     = Raise (InvalidParameterError what))
  /\ match fst (player_stats player_id season w) with
     | Ok _ => True
     | Raise e => leaves_get_player_stats e = true
     end
  /\ snd (player_stats player_id season w)
     = if stats_input_ok current_year player_id season
       then w ++ [StatsRequest player_id season]
       else w.
Proof.
  rewrite get_player_stats_unfold.
  destruct (stats_input_ok current_year player_id season).
  - pose proof (request_logged (StatsRequest player_id season)
                  (fun w => stats_endpoint w player_id season) w) as Hlog.
    destruct (_request _ _ w) as [[stats|e] w'] eqn:R;
      cbn [fst snd] in *.
    + repeat split; auto; [discriminate|]. intros [what H]. discriminate.
    + apply request_leaves in R.
      split; [|split; [|assumption]].
      * split; [discriminate|]. intros [what H].
        destruct e; discriminate.
      * destruct e; try discriminate; reflexivity.
  - cbn [fst snd]. repeat split; eauto.
Qed.

(** [compare_player_seasons] in full. *)
Lemma compare_unfold player_id seasons w :
  compare player_id seasons w
  = if player_id <=? 0
    then (Raise (InvalidParameterError (BadPlayerId player_id)), w)
    else
      match seasons with
      | [] => (Raise (InvalidParameterError EmptySeasons), w)
      | _ =>
          match check_seasons current_year seasons w with
          | (Raise e, w0) => (Raise (wrapped e), w0)
          | (Ok _, w0) =>
              match get_player players_endpoint player_id w0 with
              | (Raise e, w1) => (Raise (wrapped e), w1)
              | (Ok player, w1) =>
                  match averages_loop stats_endpoint current_year
                          player_id seasons ∅ w1 with
                  | (Raise e, w2) => (Raise (wrapped e), w2)
                  | (Ok raw, w2) =>
                      match summary_of player with
                      | Raise e => (Raise (wrapped e), w2)
                      | Ok summary =>
                          (Ok {| player := summary;
                                 Client.seasons := seasons;
                                 season_averages :=
                                   kmap (pretty : Z -> string) raw;
                                 growth :=
                                   Growth.compute_growth seasons raw;
                                 metrics := Growth.key_metrics |}, w2)
                      end
                  end
              end
          end
      end.
Proof.
  unfold compare_player_seasons, try_except, wrapped.
  destruct (player_id <=? 0); [reflexivity|].
  destruct seasons as [|s rest]; [reflexivity|].
  set (l := s :: rest). unfold bind.
  destruct (check_seasons current_year l w) as [[[]|e] w0];
    [|destruct e; reflexivity].
  destruct (get_player players_endpoint player_id w0) as [[player|e] w1];
    [|destruct e; reflexivity].
  destruct (averages_loop _ _ _ l ∅ w1) as [[raw|e] w2];
    [|destruct e; reflexivity].
  unfold lift. destruct (summary_of player) as [summary|e];
    [reflexivity|destruct e; reflexivity].
Qed.

Lemma compare_leaves player_id seasons w e w' :
  compare player_id seasons w = (Raise e, w') -> leaves_compare e = true.
Proof.
  intros H.
  pose proof (ClientFacts.compare_never_auth _ _ _ _ _ _ _ _ H) as Hauth.
  assert (exists e0, e = wrapped e0) as [e0 ->].
  { rewrite compare_unfold in H.
    destruct (player_id <=? 0).
    { injection H as <- _.
      now exists (InvalidParameterError (BadPlayerId player_id)). }
    destruct seasons as [|s rest].
    { injection H as <- _. now exists (InvalidParameterError EmptySeasons). }
    destruct (check_seasons _ _ w) as [[[]|e1] w0];
      [|injection H as <- _; eauto].
    destruct (get_player _ _ w0) as [[player|e1] w1];
      [|injection H as <- _; eauto].
    destruct (averages_loop _ _ _ _ ∅ w1) as [[raw|e1] w2];
      [|injection H as <- _; eauto].
    destruct (summary_of player) as [summary|e1];
      [discriminate|injection H as <- _; eauto]. }
  unfold wrapped in *. destruct e0; try reflexivity; discriminate.
Qed.

(** X6. The exception that leaves [compare_player_seasons] is an
    [InvalidParameterError], a [PlayerNotFoundError], a
    [RequestException] or an [NBAApiException]: no built-in exception
    of the aggregation (such as [OverflowError] or [AttributeError])
    leaves it bare. *)
Theorem compare_exceptions (player_id : Z) (seasons : list Z) (w : world) :
  match fst (compare player_id seasons w) with
  | Ok _ => True
  | Raise e => leaves_compare e = true
  end.
Proof.
  destruct (compare player_id seasons w) as [[r|e] w'] eqn:H;
    cbn [fst]; [exact I|].
  exact (compare_leaves _ _ _ _ _ H).
Qed.

Lemma check_seasons_outcome seasons w :
  snd (check_seasons current_year seasons w) = w
  /\ (is_ok (fst (check_seasons current_year seasons w)) = true ->
      Forall (fun s => valid_season current_year s = true) seasons).
Proof.
  induction seasons as [|s rest IH]; cbn [check_seasons].
  - split; [reflexivity|]. constructor.
  - destruct (valid_season current_year s) eqn:V; cbn [negb].
    + destruct IH as [IH1 IH2]. split; [assumption|].
      intros H. constructor; auto.
    + split; [reflexivity|]. discriminate.
Qed.

(** The loop over the seasons makes one request for each season it
    reaches. *)
Lemma averages_loop_calls player_id seasons :
  0 < player_id ->
  Forall (fun s => valid_season current_year s = true) seasons ->
  forall raw w,
  exists k,
    snd (averages_loop stats_endpoint current_year player_id seasons raw w)
    = w ++ map (fun s => StatsRequest player_id (Some s)) (take k seasons)
    /\ (is_ok (fst (averages_loop stats_endpoint current_year player_id
                      seasons raw w)) = true ->
        take k seasons = seasons).
Proof.
  intros Hid. induction 1 as [|s rest Hs _ IH]; intros raw w;
    cbn [averages_loop].
  - exists 0%nat. cbn. now rewrite app_nil_r.
  - unfold bind.
    pose proof (get_player_stats_logged player_id (Some s) w) as Hlog.
    assert (stats_input_ok current_year player_id (Some s) = true) as Hok.
    { unfold stats_input_ok. rewrite Hs.
      replace (0 <? player_id) with true by lia. reflexivity. }
    rewrite Hok in Hlog.
    destruct (player_stats player_id (Some s) w) as [[stats|e] w1];
      cbn [snd] in Hlog; subst w1.
    2: { exists 1%nat. cbn. split; [reflexivity|discriminate]. }
    unfold lift.
    destruct (Aggregator.season_average stats) as [entry|e].
    2: { exists 1%nat. cbn. split; [reflexivity|discriminate]. }
    destruct (IH (<[s := entry]> raw) (w ++ [StatsRequest player_id (Some s)]))
      as (k & Hk & Hall).
    exists (S k). cbn [take map]. rewrite Hk, <- app_assoc. cbn [app].
    split; [reflexivity|]. intros H. now rewrite Hall.
Qed.

(** X7. Whatever happens, the requests of a comparison are the first few
    of: one for the player, then one for each season of the list, in its
    order and with its repetitions.  A comparison that returns has made
    all of them, and none besides. *)
Theorem compare_calls (player_id : Z) (seasons : list Z) (w : world) :
  exists k,
    snd (compare player_id seasons w)
    = w ++ take k (expected_calls player_id seasons)
    /\ (is_ok (fst (compare player_id seasons w)) = true ->
        snd (compare player_id seasons w)
        = w ++ expected_calls player_id seasons).
Proof.
  rewrite compare_unfold. unfold expected_calls.
  destruct (player_id <=? 0) eqn:Hid.
  { exists 0%nat. cbn. split; [now rewrite app_nil_r|discriminate]. }
  destruct seasons as [|s rest].
  { exists 0%nat. cbn. split; [now rewrite app_nil_r|discriminate]. }
  set (l := s :: rest).
  destruct (check_seasons_outcome l w) as [Hw Hvalid].
  destruct (check_seasons current_year l w) as [[[]|e] w0];
    cbn [fst snd] in *; subst w0.
  2: { exists 0%nat. cbn. split; [now rewrite app_nil_r|discriminate]. }
  specialize (Hvalid eq_refl).
  pose proof (get_player_logged player_id w) as Hlog. rewrite Hid in Hlog.
  destruct (get_player players_endpoint player_id w) as [[player|e] w1];
    cbn [snd] in Hlog; subst w1.
  2: { exists 1%nat. cbn. split; [reflexivity|discriminate]. }
  destruct (averages_loop_calls player_id l ltac:(lia) Hvalid ∅
              (w ++ [PlayerRequest player_id])) as (k & Hk & Hall).
  destruct (averages_loop _ _ _ l ∅ _) as [[raw|e] w2];
    cbn [fst snd] in *; subst w2.
  2: { exists (S k). cbn [take]. rewrite firstn_map, <- app_assoc. cbn.
       split; [reflexivity|discriminate]. }
  specialize (Hall eq_refl).
  exists (S k). cbn [take]. rewrite firstn_map, Hall, <- app_assoc.
  destruct (summary_of player); cbn; auto.
Qed.

(** The seasons that have an entry after the loop over the seasons. *)
Lemma averages_loop_entries player_id seasons : forall raw w raw' w',
  averages_loop stats_endpoint current_year player_id seasons raw w
  = (Ok raw', w') ->
  forall s, is_Some (raw' !! s) <-> s ∈ seasons \/ is_Some (raw !! s).
Proof.
  induction seasons as [|s0 rest IH]; intros raw w raw' w' H s;
    cbn [averages_loop] in H.
  - cbv [ret] in H. injection H as <- _. rewrite elem_of_nil. tauto.
  - unfold bind in H.
    destruct (get_player_stats _ _ _ _ w) as [[stats|e] w1]; [|discriminate].
    unfold lift in H.
    destruct (Aggregator.season_average stats) as [entry|e]; [|discriminate].
    rewrite (IH _ _ _ _ H s), lookup_insert_is_Some, elem_of_cons.
    destruct (decide (s0 = s)); [subst; intuition eauto|].
    intuition congruence.
Qed.

(** X8. A comparison that returns echoes the seasons and the fixed
    metrics, holds an entry of averages under the decimal form of every
    requested season and under no other key, and its growth is the one
    computed from those same entries. *)
Theorem comparison_entries
    (player_id : Z) (seasons : list Z) (w : world) (r : comparison)
    (w' : world) :
  compare player_id seasons w = (Ok r, w') ->
  Client.seasons r = seasons
  /\ metrics r = Growth.key_metrics
  /\ (forall key,
        is_Some (season_averages r !! key)
        <-> exists s, s ∈ seasons /\ key = pretty s)
  /\ exists raw : gmap Z (option averages),
       (forall s, season_averages r !! pretty s = raw !! s)
       /\ growth r = Growth.compute_growth seasons raw.
Proof.
  intros H. rewrite compare_unfold in H.
  destruct (player_id <=? 0); [discriminate|].
  destruct seasons as [|s0 rest]; [discriminate|].
  set (l := s0 :: rest) in *.
  destruct (check_seasons _ _ w) as [[[]|e] w0]; [|discriminate].
  destruct (get_player _ _ w0) as [[player|e] w1]; [|discriminate].
  destruct (averages_loop _ _ _ l ∅ w1) as [[raw|e] w2] eqn:L;
    [|discriminate].
  destruct (summary_of player) as [summary|e]; [|discriminate].
  injection H as <- _. cbn [Client.seasons metrics season_averages growth].
  split; [reflexivity|]. split; [reflexivity|]. split.
  - intros key. rewrite (lookup_kmap_is_Some (pretty : Z -> string)).
    split.
    + intros (s & -> & Hs). exists s. split; [|reflexivity].
      apply (averages_loop_entries _ _ _ _ _ _ L) in Hs as [Hs|Hs];
        [assumption|].
      rewrite lookup_empty in Hs. now destruct Hs.
    + intros (s & Hs & ->). exists s. split; [reflexivity|].
      apply (averages_loop_entries _ _ _ _ _ _ L). now left.
  - exists raw. split; [|reflexivity].
    intros s. apply (lookup_kmap (pretty : Z -> string)).
Qed.

(** X9. With a valid player id and valid seasons, when the data of the
    player is empty the comparison raises [PlayerNotFoundError] after the
    one request for the player: no stats are requested. *)
Theorem unknown_player_stops
    (player_id : Z) (seasons : list Z) (w : world) :
  0 < player_id -> seasons <> [] ->
  Forall (fun s => 1946 <= s <= current_year) seasons ->
  players_endpoint w player_id = Answer 200 ∅
  \/ players_endpoint w player_id = Cached ∅ ->
  compare player_id seasons w
  = (Raise (PlayerNotFoundError player_id), w ++ [PlayerRequest player_id]).
Proof.
  intros Hid Hne Hvalid Hdata.
  apply (ClientFacts.player_failure_aborts players_endpoint stats_endpoint
           current_year player_id seasons w (PlayerNotFoundError player_id));
    try assumption.
  rewrite get_player_unfold. replace (player_id <=? 0) with false by lia.
  rewrite ClientFacts.request_outcome.
  destruct Hdata as [-> | ->]; reflexivity.
Qed.

End Calls.

End CallsFacts.

Module CallsWitnesses.
Import Py Client Calls.

(** X8, for the seasons 2021 to 2023 of the sample endpoints. *)
Lemma comparison_entries_witness :
  exists r w',
    compare_player_seasons Samples.any_player Samples.nothing_in_2022 2025
      1 Samples.three_seasons [] = (Ok r, w')
    /\ Client.seasons r = Samples.three_seasons
    /\ (forall key,
          is_Some (season_averages r !! key)
          <-> exists s, s ∈ Samples.three_seasons /\ key = pretty s).
Proof.
  destruct (compare_player_seasons Samples.any_player Samples.nothing_in_2022
              2025 1 Samples.three_seasons []) as [[r|e] w'] eqn:H.
  - exists r, w'. split; [reflexivity|].
    destruct (CallsFacts.comparison_entries _ _ _ _ _ _ _ _ H)
      as (Hs & _ & Hkeys & _).
    split; assumption.
  - vm_compute in H. discriminate.
Defined.

(** X9, for the player 7 and the season 2023. *)
Lemma unknown_player_stops_witness :
  compare_player_seasons unknown_player Samples.no_stats 2025 7 [2023] []
  = (Raise (PlayerNotFoundError 7), [PlayerRequest 7]).
Proof.
  apply (CallsFacts.unknown_player_stops unknown_player Samples.no_stats
           2025 7 [2023] []).
  - lia.
  - discriminate.
  - repeat constructor; lia.
  - left. reflexivity.
Defined.

End CallsWitnesses.

(** ** The search of players *)

Module SearchFacts.
Import Py Search.

(** What the loop keeps: the players whose id is neither seen before the
    loop nor the id of a player before them in the list. *)
Lemma unique_loop_spec (all_results : list player_entry) :
  forall seen_ids unique_results,
  exists kept,
    unique_loop all_results seen_ids unique_results = unique_results ++ kept
    /\ kept `sublist_of` all_results
    /\ NoDup (entry_id <$> kept)
    /\ (forall q, q ∈ kept -> entry_id q ∉ seen_ids)
    /\ (forall p, p ∈ all_results ->
          entry_id p ∈ seen_ids
          \/ exists q, q ∈ kept /\ entry_id q = entry_id p)
    /\ (forall q, q ∈ kept ->
          exists before after,
            all_results = before ++ q :: after
            /\ forall p, p ∈ before -> entry_id p <> entry_id q).
Proof.
  induction all_results as [|player rest IH]; intros seen_ids unique_results;
    cbn [unique_loop].
  - exists []. rewrite app_nil_r.
    split; [reflexivity|]. split; [constructor|]. split; [constructor|].
    split; [|split]; intros q Hq; now apply elem_of_nil in Hq.
  - destruct (decide (entry_id player ∈ seen_ids)) as [Hseen|Hnew].
    + destruct (IH seen_ids unique_results)
        as (kept & Heq & Hsub & Hnd & Hout & Hall & Hfirst).
      exists kept. split; [assumption|]. split; [now constructor|].
      split; [assumption|]. split; [assumption|]. split.
      * intros p [->|Hp]%elem_of_cons; [now left|auto].
      * intros q Hq. destruct (Hfirst q Hq) as (before & after & -> & Hb).
        exists (player :: before), after. split; [reflexivity|].
        intros p [->|Hp]%elem_of_cons; [|auto].
        intros Heq'. apply (Hout q Hq). now rewrite <- Heq'.
    + destruct (IH ({[entry_id player]} ∪ seen_ids)
                  (unique_results ++ [player]))
        as (kept & Heq & Hsub & Hnd & Hout & Hall & Hfirst).
      exists (player :: kept). rewrite Heq, <- app_assoc.
      split; [reflexivity|]. split; [now constructor|].
      split; [|split; [|split]].
      * rewrite fmap_cons. apply NoDup_cons. split; [|assumption].
        intros (q & Hq & Hin)%list_elem_of_fmap.
        apply (Hout q Hin). rewrite <- Hq. set_solver.
      * intros q [->|Hq]%elem_of_cons; [assumption|].
        specialize (Hout q Hq). set_solver.
      * intros p [->|Hp]%elem_of_cons.
        -- right. exists player. split; [apply list_elem_of_here|reflexivity].
        -- destruct (Hall p Hp) as [Hin|(q & Hq & Hid)].
           ++ apply elem_of_union in Hin as [Hin|Hin]; [|now left].
              apply elem_of_singleton in Hin. right. exists player.
              split; [apply list_elem_of_here|now symmetry].
           ++ right. exists q.
              split; [now apply list_elem_of_further|assumption].
      * intros q [->|Hq]%elem_of_cons.
        -- exists [], rest. split; [reflexivity|].
           intros p Hp. now apply elem_of_nil in Hp.
        -- destruct (Hfirst q Hq) as (before & after & -> & Hb).
           exists (player :: before), after. split; [reflexivity|].
           intros p [->|Hp]%elem_of_cons; [|auto].
           intros Heq'. apply (Hout q Hq). rewrite <- Heq'. set_solver.
Qed.

Section Search.

Variable request_players : search_params -> M (list player_entry).

(** X10. A search for a name of two words or more makes the general
    request and then the request by first and last name, and returns
    players of the two answers, in their order, with ids that all
    differ: for every id found, the first player found with it and no
    other.  A player without id counts as having the id [None]. *)
Theorem search_keeps_first_of_each_id
    (name : string) (w : world) (found : list player_entry) (w' : world) :
  (1 < length (str_split (str_strip name)))%nat ->
  search_players request_players name w = (Ok found, w') ->
  exists results1 results2 w1,
    request_players (BySearch name) w = (Ok results1, w1)
    /\ request_players
         (ByName (hd ""%string (str_split (str_strip name)))
                 (List.last (str_split (str_strip name)) ""%string)) w1
       = (Ok results2, w')
    /\ found `sublist_of` (results1 ++ results2)
    /\ NoDup (entry_id <$> found)
    /\ (forall p, p ∈ results1 ++ results2 ->
          exists q, q ∈ found /\ entry_id q = entry_id p)
    /\ (forall q, q ∈ found ->
          exists before after,
            results1 ++ results2 = before ++ q :: after
            /\ forall p, p ∈ before -> entry_id p <> entry_id q).
Proof.
  intros Hwords. unfold search_players, try_except.
  apply Nat.ltb_lt in Hwords. rewrite Hwords. unfold bind.
  destruct (request_players (BySearch name) w) as [[results1|e] w1];
    [|discriminate].
  destruct (request_players _ w1) as [[results2|e] w2] eqn:Hsecond;
    [|discriminate].
  cbv [ret]. intros [= <- <-].
  exists results1, results2, w1. split; [reflexivity|].
  split; [exact Hsecond|].
  destruct (unique_loop_spec (results1 ++ results2) ∅ [])
    as (kept & -> & Hsub & Hnd & _ & Hall & Hfirst).
  cbn [app]. repeat split; try assumption.
  intros p Hp. destruct (Hall p Hp) as [Hin|H]; [|assumption].
  now apply not_elem_of_empty in Hin.
Qed.

(** A search for a name of fewer than two words is the general request
    alone, for the name as given, and returns its answer as it is:
    players with the same id are all kept. *)
Lemma search_single_word (name : string) (w : world) :
  (length (str_split (str_strip name)) <= 1)%nat ->
  search_players request_players name w = request_players (BySearch name) w.
Proof.
  intros Hwords. unfold search_players, try_except.
  replace (1 <? length (str_split (str_strip name)))%nat with false
    by (symmetry; apply Nat.ltb_ge; lia).
  destruct (request_players (BySearch name) w) as [[found|e] w'];
    reflexivity.
Qed.

End Search.

(** X10, for a search that finds the players 1 and 2, then 2 and 3. *)
Lemma search_keeps_first_of_each_id_witness :
  search_players two_lists "LeBron James" []
  = (Ok [with_id 1; with_id 2; with_id 3], [])
  /\ NoDup (entry_id <$> [with_id 1; with_id 2; with_id 3]).
Proof.
  assert (search_players two_lists "LeBron James" []
          = (Ok [with_id 1; with_id 2; with_id 3], [])) as H
    by (vm_compute; reflexivity).
  split; [exact H|].
  destruct (search_keeps_first_of_each_id two_lists "LeBron James" [] _ []
              ltac:(vm_compute; lia) H)
    as (results1 & results2 & w1 & _ & _ & _ & Hnd & _).
  exact Hnd.
Defined.

End SearchFacts.

(** ** The handlers of the statistics endpoints *)

Module EndpointsFacts.
Import Py Endpoints.

Section Endpoints.

Variable players_endpoint : world -> Z -> response (gmap string pyval).
Variable stats_endpoint : world -> Z -> option Z -> response (list stat_record).
Variable current_year : Z.

Local Abbreviation compare :=
  (Client.compare_player_seasons players_endpoint stats_endpoint current_year).
Local Abbreviation compare_get :=
  (compare_seasons_get players_endpoint stats_endpoint current_year).
Local Abbreviation compare_post :=
  (compare_seasons_post players_endpoint stats_endpoint current_year).

(** The seasons of the client, in terms of its one request. *)
Lemma client_seasons_unfold player_id w :
  Client.get_player_seasons stats_endpoint player_id w
  = match Client._request (StatsRequest player_id None)
            (fun w => stats_endpoint w player_id None) w with
    | (Ok data, w') =>
        (Ok (Client.sorted_seasons (Client.collect_seasons data)), w')
    | (Raise e, w') => (Raise e, w')
    end.
Proof.
  unfold Client.get_player_seasons, try_except, bind.
  destruct (Client._request _ _ w) as [[data|e] w']; reflexivity.
Qed.

(** X12. The handler of the seasons of a player makes one stats request,
    whatever the player id, and either returns the seasons of the client,
    which are then not empty, or raises [HTTPException] with the status
    500.  The status 404 the handler raises when there is no season is
    caught by its own [except Exception] clause and comes out as 500, and
    the clauses for 400, 401, 404 and 429 meet no exception of the
    client. *)
Theorem seasons_handler_outcomes (player_id : Z) (w : world) :
  snd (get_player_seasons stats_endpoint player_id w)
  = w ++ [StatsRequest player_id None]
  /\ match fst (get_player_seasons stats_endpoint player_id w) with
     | Returns seasons =>
         seasons <> []
         /\ fst (Client.get_player_seasons stats_endpoint player_id w)
            = Ok seasons
     | Raises e =>
         e = HTTPException 500
         /\ (fst (Client.get_player_seasons stats_endpoint player_id w)
             = Ok []
             \/ exists e',
                  fst (Client.get_player_seasons stats_endpoint player_id w)
                  = Raise e'
                  /\ is_request_failure e' = true)
     end.
Proof.
  unfold get_player_seasons, try_clauses, call.
  rewrite client_seasons_unfold.
  pose proof (CallsFacts.request_logged (StatsRequest player_id None)
                (fun w => stats_endpoint w player_id None) w) as Hlog.
  destruct (Client._request _ _ w) as [[data|e] w'] eqn:R;
    cbn [snd] in Hlog; subst w'.
  - destruct (Client.sorted_seasons (Client.collect_seasons data))
      as [|s rest]; cbn [fst snd].
    + split; [reflexivity|]. split; [reflexivity|]. now left.
    + split; [reflexivity|]. split; [discriminate|reflexivity].
  - apply CallsFacts.request_leaves in R.
    cbn [fst snd]. split; [reflexivity|].
    split; [destruct e; try discriminate; reflexivity|].
    right. exists e. split; [reflexivity|].
    destruct e; try discriminate; reflexivity.
Qed.

(** X13. The handlers of the comparison return what the client returns,
    and otherwise raise [HTTPException] with the status 400 for an
    [InvalidParameterError] of the client, 404 for its
    [PlayerNotFoundError], and 500 for the rest: never 401 or 429.  With
    an empty list of seasons the status is 500, not the 400 the handler
    raises, which its own [except Exception] clause catches; the client
    is not called.  The POST handler is the GET handler on the seasons
    of its request body. *)
Theorem compare_handler_outcomes
    (player_id : Z) (seasons : list Z) (w : world) :
  match fst (compare_get player_id seasons w) with
  | Returns r => seasons <> [] /\ fst (compare player_id seasons w) = Ok r
  | Raises e =>
      (e = HTTPException 400 /\ seasons <> []
       /\ exists what,
            fst (compare player_id seasons w)
            = Raise (InvalidParameterError what))
      \/ (e = HTTPException 404 /\ seasons <> []
          /\ exists id,
               fst (compare player_id seasons w)
               = Raise (PlayerNotFoundError id))
      \/ (e = HTTPException 500
          /\ (seasons = []
              \/ exists e',
                   fst (compare player_id seasons w) = Raise e'
                   /\ is_request_failure e' = true))
  end
  /\ snd (compare_get player_id seasons w)
     = match seasons with
       | [] => w
       | _ => snd (compare player_id seasons w)
       end
  /\ compare_post player_id {| Endpoints.seasons := seasons |} w
     = compare_get player_id seasons w.
Proof.
  split; [|split; [|reflexivity]];
    unfold compare_seasons_get, try_clauses, call.
  - destruct seasons as [|s rest]; cbn [length Nat.ltb Nat.leb fst].
    { right. right. split; [reflexivity|]. now left. }
    set (l := s :: rest).
    destruct (compare player_id l w) as [[r|e] w'] eqn:H; cbn [fst].
    { split; [discriminate|reflexivity]. }
    pose proof (CallsFacts.compare_leaves _ _ _ _ _ _ _ _ H) as Hl.
    destruct e; try discriminate; cbn [except_clauses].
    + right. right. split; [reflexivity|]. right. eauto.
    + right. left. split; [reflexivity|]. split; [discriminate|]. eauto.
    + left. split; [reflexivity|]. split; [discriminate|]. eauto.
    + right. right. split; [reflexivity|]. right. eauto.
  - destruct seasons as [|s rest]; cbn [length Nat.ltb Nat.leb snd];
      [reflexivity|].
    destruct (compare player_id (s :: rest) w) as [[r|e] w']; reflexivity.
Qed.

End Endpoints.

End EndpointsFacts.

(** ** The rate limit of the server *)

Module RateLimitFacts.
Import RateLimit.

Lemma serve_length requests : forall counts,
  length (fst (serve requests counts)) = length requests.
Proof.
  induction requests as [|[ip now] rest IH]; intros counts; cbn [serve].
  - reflexivity.
  - destruct (rate_limit_middleware ip now counts) as [v c].
    specialize (IH c). destruct (serve rest c) as [vs c'].
    cbn [fst length] in *. now rewrite IH.
Qed.

Lemma serve_snoc requests client_ip now : forall counts,
  serve (requests ++ [(client_ip, now)]) counts
  = (fst (serve requests counts)
     ++ [fst (rate_limit_middleware client_ip now
                (snd (serve requests counts)))],
     snd (rate_limit_middleware client_ip now (snd (serve requests counts)))).
Proof.
  induction requests as [|[ip t] rest IH]; intros counts;
    cbn [serve app fst snd].
  - destruct (rate_limit_middleware client_ip now counts) as [v c].
    reflexivity.
  - destruct (rate_limit_middleware ip t counts) as [v c].
    rewrite IH. destruct (serve rest c) as [vs c']. reflexivity.
Qed.


Lemma history_snoc requests client_ip now :
  history (requests ++ [(client_ip, now)])
  = history requests
    ++ [((client_ip, now),
         fst (rate_limit_middleware client_ip now
                (snd (serve requests ∅))))].
Proof.
  unfold history. rewrite serve_snoc. cbn [fst].
  rewrite zip_with_app by (now rewrite serve_length). reflexivity.
Qed.

Lemma passed_app client_ip served served' :
  passed client_ip (served ++ served')
  = passed client_ip served + passed client_ip served'.
Proof.
  unfold passed. rewrite List.filter_app, length_app. lia.
Qed.

Lemma first_time_app client_ip requests requests' :
  first_time client_ip (requests ++ requests')
  = match first_time client_ip requests with
    | Some t => Some t
    | None => first_time client_ip requests'
    end.
Proof.
  unfold first_time. induction requests as [|r rest IH]; cbn [app List.find].
  - reflexivity.
  - destruct (String.eqb (fst r) client_ip); [reflexivity|exact IH].
Qed.

Lemma passed_unknown client_ip requests : forall vs,
  first_time client_ip requests = None ->
  passed client_ip (zip requests vs) = 0.
Proof.
  unfold first_time, passed.
  induction requests as [|r rest IH]; intros [|v vs] H; try reflexivity.
  cbn [List.find] in H. cbn [zip_with List.filter fst snd].
  destruct (String.eqb (fst r) client_ip); [discriminate|].
  cbn [andb]. now apply IH.
Qed.

(** [request_counts] after the requests served since the start: for
    every address that made a request, the time of its first request and
    the number of its requests let through. *)
Lemma serve_state requests : forall client_ip,
  snd (serve requests ∅) !! client_ip
  = (fun t => {| count := passed client_ip (history requests);
                 timestamp := t |})
    <$> first_time client_ip requests.
Proof.
  induction requests as [|[ip now] requests IH] using rev_ind;
    intros client_ip.
  - cbn [serve snd]. rewrite lookup_empty. reflexivity.
  - rewrite serve_snoc, history_snoc, passed_app, first_time_app.
    cbn [snd]. unfold rate_limit_middleware.
    pose proof (IH ip) as Hip. pose proof (IH client_ip) as Hc.
    assert (passed client_ip
              [((ip, now), Passed)]
            = if String.eqb ip client_ip then 1 else 0) as Hone.
    { unfold passed. cbn [List.filter fst snd].
      destruct (String.eqb ip client_ip); reflexivity. }
    assert (passed client_ip [((ip, now), Refused)] = 0) as Hnone.
    { unfold passed. cbn [List.filter fst snd].
      destruct (String.eqb ip client_ip); reflexivity. }
    assert (first_time client_ip [(ip, now)]
            = if String.eqb ip client_ip then Some now else None) as Hfirst.
    { unfold first_time. cbn [List.find fst].
      destruct (String.eqb ip client_ip); reflexivity. }
    destruct (snd (serve requests ∅) !! ip) as [e|] eqn:E.
    + destruct (first_time ip requests) as [t0|] eqn:F; [|discriminate].
      injection Hip as ->. cbn [count timestamp].
      destruct ((100 <? passed ip (history requests))
                && (now - t0 <? 60)%float) eqn:Hlimit; cbn [fst snd].
      * rewrite Hnone, Z.add_0_r, Hc.
        destruct (first_time client_ip requests) as [t|] eqn:F';
          [reflexivity|].
        rewrite Hfirst. destruct (String.eqb_spec ip client_ip) as [->|];
          [congruence|reflexivity].
      * rewrite Hone, Hfirst.
        destruct (String.eqb_spec ip client_ip) as [->|Hne].
        -- rewrite lookup_insert_eq, F. reflexivity.
        -- rewrite lookup_insert_ne by assumption. rewrite Hc, Z.add_0_r.
           destruct (first_time client_ip requests); reflexivity.
    + destruct (first_time ip requests) as [t0|] eqn:F; [discriminate|].
      cbn [fst snd]. rewrite Hone, Hfirst.
      destruct (String.eqb_spec ip client_ip) as [->|Hne].
      * rewrite lookup_insert_eq, F. cbn [fmap option_fmap option_map].
        unfold history. rewrite (passed_unknown _ _ _ F). reflexivity.
      * rewrite lookup_insert_ne by assumption. rewrite Hc, Z.add_0_r.
        destruct (first_time client_ip requests); reflexivity.
Qed.

(** The verdict on a request, from the requests served before it. *)
Lemma verdict_after requests client_ip now :
  fst (rate_limit_middleware client_ip now (snd (serve requests ∅)))
  = match first_time client_ip requests with
    | Some t0 =>
        if (100 <? passed client_ip (history requests))
           && (now - t0 <? 60)%float
        then Refused else Passed
    | None => Passed
    end.
Proof.
  unfold rate_limit_middleware. rewrite serve_state.
  destruct (first_time client_ip requests) as [t0|];
    cbn [fmap option_fmap option_map count timestamp]; [|reflexivity].
  destruct ((100 <? passed client_ip (history requests))
            && (now - t0 <? 60)%float); reflexivity.
Qed.

(** X14. After any requests served since the start of the server, a
    request is refused exactly when it comes less than 60 seconds after
    the first request of its address, and more than 100 requests of that
    address have been let through.  The time kept for an address is
    that of its first request and is never renewed: once 60 seconds
    have passed since then, no request of the address is refused. *)
Theorem refused_in_first_minute_only
    (requests : list (string * float)) (client_ip : string) (now : float) :
  fst (rate_limit_middleware client_ip now (snd (serve requests ∅))) = Refused
  <-> exists t0,
        first_time client_ip requests = Some t0
        /\ (now - t0 <? 60)%float = true
        /\ 100 < passed client_ip (history requests).
Proof.
  rewrite verdict_after.
  destruct (first_time client_ip requests) as [t0|].
  - destruct (100 <? passed client_ip (history requests)) eqn:Hcount;
      cbn [andb].
    + destruct (now - t0 <? 60)%float eqn:Hwindow.
      * split; [|reflexivity]. intros _. exists t0.
        repeat split; [assumption|lia].
      * split; [discriminate|]. intros (t & [= <-] & Ht & _). congruence.
    + split; [discriminate|]. intros (t & _ & _ & Hc). lia.
  - split; [discriminate|]. intros (t & Ht & _). discriminate.
Qed.

(** X15. Of the requests of an address that all come less than 60
    seconds after its first one, at most 101 are let through. *)
Theorem at_most_101_in_first_minute
    (requests : list (string * float)) (client_ip : string) (t0 : float) :
  first_time client_ip requests = Some t0 ->
  (forall now, (client_ip, now) ∈ requests -> (now - t0 <? 60)%float = true) ->
  passed client_ip (history requests) <= 101.
Proof.
  induction requests as [|[ip now] requests IH] using rev_ind;
    [discriminate|].
  intros Hfirst Hwindow.
  rewrite history_snoc, passed_app. rewrite first_time_app in Hfirst.
  assert (forall v, passed client_ip [((ip, now), v)] <= 1) as Hone.
  { intros v. unfold passed. cbn [List.filter fst snd].
    destruct (String.eqb ip client_ip && _); cbn [length]; lia. }
  destruct (first_time client_ip requests) as [t|] eqn:F.
  - injection Hfirst as ->.
    assert (passed client_ip (history requests) <= 101) as Hbefore.
    { apply IH; [reflexivity|].
      intros t Ht. apply Hwindow, elem_of_app. now left. }
    destruct (String.eqb_spec ip client_ip) as [->|Hne].
    + destruct (decide (passed client_ip (history requests) <= 100))
        as [|Hfull].
      { specialize (Hone (fst (rate_limit_middleware client_ip now
                                 (snd (serve requests ∅))))). lia. }
      assert (fst (rate_limit_middleware client_ip now
                     (snd (serve requests ∅))) = Refused) as ->.
      { rewrite verdict_after, F.
        replace (100 <? passed client_ip (history requests)) with true
          by lia.
        rewrite (Hwindow now); [reflexivity|].
        apply elem_of_app. right. apply list_elem_of_here. }
      unfold passed at 2. cbn [List.filter fst snd].
      rewrite andb_false_r. cbn [length]. lia.
    + unfold passed at 2. cbn [List.filter fst snd].
      rewrite (proj2 (String.eqb_neq _ _) Hne). cbn [andb length]. lia.
  - unfold history. rewrite (passed_unknown _ _ _ F).
    specialize (Hone (fst (rate_limit_middleware ip now
                             (snd (serve requests ∅))))). lia.
Qed.

(** X15, for 150 requests of one address at the same time: 101 are let
    through. *)
Lemma at_most_101_in_first_minute_witness :
  passed "10.0.0.7" (history (burst "10.0.0.7" (replicate 150 5%float)))
  <= 101
  /\ passed "10.0.0.7" (history (burst "10.0.0.7" (replicate 150 5%float)))
     = 101.
Proof.
  split; [|vm_compute; reflexivity].
  apply (at_most_101_in_first_minute _ "10.0.0.7" 5%float).
  - vm_compute. reflexivity.
  - intros now Hnow. unfold burst in Hnow.
    apply list_elem_of_fmap in Hnow as (t & [= ->] & Ht).
    apply elem_of_replicate in Ht as [-> _]. vm_compute. reflexivity.
Defined.

End RateLimitFacts.

(** ** The files of the cache *)

Module CacheFacts.
Import Cache.

Lemma compare_le_trans (s1 : string) : forall s2 s3,
  String.compare s1 s2 <> Gt -> String.compare s2 s3 <> Gt ->
  String.compare s1 s3 <> Gt.
Proof.
  induction s1 as [|c1 s1 IH]; intros [|c2 s2] [|c3 s3];
    cbn [String.compare]; try congruence.
  unfold Ascii.compare.
  destruct (N.compare_spec (N_of_ascii c1) (N_of_ascii c2)) as [E12|L12|G12];
    destruct (N.compare_spec (N_of_ascii c2) (N_of_ascii c3))
      as [E23|L23|G23];
    destruct (N.compare_spec (N_of_ascii c1) (N_of_ascii c3))
      as [E13|L13|G13];
    try congruence; try lia.
  apply IH.
Qed.

Lemma item_le_trans : Transitive item_le.
Proof.
  intros a b c. unfold item_le, String.leb. intros Hab Hbc.
  pose proof (compare_le_trans (fst a) (fst b) (fst c)) as H.
  destruct (String.compare (fst a) (fst b)); try discriminate;
    destruct (String.compare (fst b) (fst c)); try discriminate;
    destruct (String.compare (fst a) (fst c)); try reflexivity;
    exfalso; apply H; congruence.
Qed.

Lemma item_le_total : Total item_le.
Proof. intros a b. apply String.leb_total. Qed.

Lemma same_key_same_item (params : list (string * param_value)) a b :
  NoDup (fst <$> params) -> a ∈ params -> b ∈ params -> fst a = fst b ->
  a = b.
Proof.
  induction params as [|x rest IH]; intros Hnd Ha Hb Hkey.
  - now apply elem_of_nil in Ha.
  - rewrite fmap_cons in Hnd. apply NoDup_cons in Hnd as [Hx Hnd].
    apply elem_of_cons in Ha as [->|Ha]; apply elem_of_cons in Hb as [->|Hb].
    + reflexivity.
    + exfalso. apply Hx. rewrite Hkey. apply list_elem_of_fmap. eauto.
    + exfalso. apply Hx. rewrite <- Hkey. apply list_elem_of_fmap. eauto.
    + now apply IH.
Qed.

(** X17. The file of a request does not depend on the order in which
    its parameters were put in the dict. *)
Theorem cache_path_ignores_insertion_order
    (cache_dir endpoint : string)
    (params params' : list (string * param_value)) :
  NoDup (fst <$> params) -> params ≡ₚ params' ->
  _get_cache_path cache_dir endpoint params
  = _get_cache_path cache_dir endpoint params'.
Proof.
  intros Hnd Hperm.
  assert (sorted_items params = sorted_items params') as Hsorted.
  { unfold sorted_items.
    apply (StronglySorted_unique_strong item_le).
    - intros a b Ha Hb Hab Hba.
      apply (same_key_same_item params); [assumption| | |].
      + now rewrite merge_sort_Permutation in Ha.
      + rewrite merge_sort_Permutation in Hb. now rewrite Hperm.
      + now apply String.leb_antisym.
    - apply (@StronglySorted_merge_sort _ item_le _ item_le_trans
               item_le_total).
    - apply (@StronglySorted_merge_sort _ item_le _ item_le_trans
               item_le_total).
    - now rewrite !merge_sort_Permutation. }
  unfold _get_cache_path, filename, param_str. rewrite Hsorted.
  destruct params as [|x rest].
  - apply Permutation_nil_l in Hperm. now subst.
  - destruct params' as [|x' rest']; [|reflexivity].
    now apply Permutation_nil_r in Hperm.
Qed.

Lemma append_cons (c : ascii) (a b : string) :
  String c a +:+ b = String c (a +:+ b).
Proof. reflexivity. Qed.

Lemma append_nil (b : string) : "" +:+ b = b.
Proof. reflexivity. Qed.

Lemma append_nil_r (a : string) : a +:+ "" = a.
Proof.
  induction a as [|ch a IH]; rewrite ?append_cons, ?append_nil;
    [reflexivity|now rewrite IH].
Qed.

Lemma append_assoc (a b c : string) : (a +:+ b) +:+ c = a +:+ b +:+ c.
Proof.
  induction a as [|ch a IH]; rewrite ?append_cons, ?append_nil;
    [reflexivity|now rewrite IH].
Qed.

(** The decimal form of an int is made of digits and minus signs. *)
Lemma pretty_N_go_decimal (x : N) : forall s,
  decimal_text s = true -> decimal_text (pretty_N_go x s) = true.
Proof.
  induction (N.lt_wf_0 x) as [x _ IH]; intros s Hs.
  destruct (decide (x = 0%N)) as [->|Hx].
  - now rewrite pretty_N_go_0.
  - rewrite pretty_N_go_step by lia. apply IH.
    + apply N.div_lt; lia.
    + unfold decimal_text in *. cbn [list_ascii_of_string forallb].
      rewrite Hs, andb_true_r.
      unfold pretty_N_char. repeat case_match; reflexivity.
Qed.

Lemma pretty_decimal (z : Z) : decimal_text (pretty z) = true.
Proof.
  assert (forall n : N, decimal_text (pretty n) = true) as HN.
  { intros n. unfold pretty, pretty_N.
    destruct (decide (n = 0%N)); [reflexivity|].
    now apply pretty_N_go_decimal. }
  destruct z as [|p|p]; [reflexivity|apply (HN (N.pos p))|].
  change (pretty (Z.neg p)) with ("-" +:+ pretty (N.pos p)).
  unfold decimal_text in *. rewrite append_cons, append_nil.
  cbn [list_ascii_of_string forallb]. apply (HN (N.pos p)).
Qed.

Lemma replace_slash_app (a b : string) :
  replace_slash (a +:+ b) = replace_slash a +:+ replace_slash b.
Proof.
  induction a as [|c a IH]; rewrite ?append_cons, ?append_nil;
    cbn [replace_slash]; [reflexivity|now rewrite IH, append_cons].
Qed.

Lemma replace_slash_decimal (s : string) :
  decimal_text s = true -> replace_slash s = s.
Proof.
  unfold decimal_text.
  induction s as [|c s IH]; cbn [list_ascii_of_string forallb replace_slash];
    [reflexivity|].
  intros [Hc Hs]%andb_true_iff. rewrite (IH Hs).
  destruct (Ascii.eqb_spec c "/") as [->|]; [discriminate|reflexivity].
Qed.

(** Decimal texts, each followed by another character, are told
    apart. *)
Lemma decimal_prefix_unique (x x' y y' : string) :
  decimal_text x = true -> decimal_text x' = true ->
  ends_decimal y = true -> ends_decimal y' = true ->
  x +:+ y = x' +:+ y' -> x = x' /\ y = y'.
Proof.
  unfold decimal_text. revert x'.
  induction x as [|c x IH]; intros [|c' x'] Hx Hx' Hy Hy' H;
    rewrite ?append_cons, ?append_nil in H;
    cbn [list_ascii_of_string forallb] in *.
  - auto.
  - exfalso. subst y. cbn [ends_decimal] in Hy.
    apply andb_true_iff in Hx' as [Hc _]. now rewrite Hc in Hy.
  - exfalso. subst y'. cbn [ends_decimal] in Hy'.
    apply andb_true_iff in Hx as [Hc _]. now rewrite Hc in Hy'.
  - injection H as -> H.
    apply andb_true_iff in Hx as [_ Hx].
    apply andb_true_iff in Hx' as [_ Hx'].
    destruct (IH x' Hx Hx' Hy Hy' H) as [-> ->]. auto.
Qed.

Lemma filename_of_player (player_id : Z) :
  filename (endpoint_of (PlayerRequest player_id))
           (params_of (PlayerRequest player_id))
  = "players_" +:+ pretty player_id +:+ ".json".
Proof.
  cbn [filename endpoint_of params_of].

  rewrite replace_slash_app, (replace_slash_decimal _ (pretty_decimal _)).
  reflexivity.
Qed.

Lemma filename_of_stats (player_id : Z) (season : option Z) :
  filename (endpoint_of (StatsRequest player_id season))
           (params_of (StatsRequest player_id season))
  = "stats_player_ids[]_" +:+ pretty player_id
    +:+ match season with
        | Some s => "_seasons[]_" +:+ pretty s +:+ ".json"
        | None => ".json"
        end.
Proof.
  destruct season as [s|]; [|reflexivity].
  unfold filename, param_str. cbn [endpoint_of params_of].
  change (sorted_items
            [("player_ids[]"%string, IntValue player_id);
             ("seasons[]"%string, IntValue s)])
    with [("player_ids[]"%string, IntValue player_id);
          ("seasons[]"%string, IntValue s)].
  cbn [map fst snd str_of join_underscore].
  rewrite !append_assoc. reflexivity.
Qed.

Lemma join_inj (cache_dir f f' : string) :
  starts_with_slash f = false -> starts_with_slash f' = false ->
  os_path_join cache_dir f = os_path_join cache_dir f' -> f = f'.
Proof.
  unfold os_path_join. intros -> ->.
  destruct (String.eqb cache_dir "" || ends_with_slash cache_dir);
    intros H; apply (inj (String.app cache_dir)) in H;
    [assumption|now injection H].
Qed.

(** X16. The requests for a player and for the stats of a player have
    files of their own: two of them that differ, in the player or in the
    season, never share a file of the cache. *)
Theorem requests_have_files_of_their_own
    (cache_dir : string) (req req' : request) :
  req <> req' ->
  _get_cache_path cache_dir (endpoint_of req) (params_of req)
  <> _get_cache_path cache_dir (endpoint_of req') (params_of req').
Proof.
  intros Hne H. apply Hne. clear Hne. unfold _get_cache_path in H.
  assert (forall r, starts_with_slash
                      (filename (endpoint_of r) (params_of r)) = false)
    as Hstart.
  { intros [id|id season];
      [rewrite filename_of_player|rewrite filename_of_stats]; reflexivity. }
  apply join_inj in H; [|apply Hstart..]. clear Hstart.
  assert (forall z : Z, ends_decimal ("_seasons[]_" +:+ pretty z +:+ ".json")
                    = true) as Hseason by reflexivity.
  destruct req as [id|id season], req' as [id'|id' season'];
    rewrite ?filename_of_player, ?filename_of_stats in H.
  - rewrite !append_cons, !append_nil in H.
    injection H as H.
    apply decimal_prefix_unique in H as [H _];
      try apply pretty_decimal; try reflexivity.
    now apply (inj pretty) in H as ->.
  - rewrite !append_cons in H. discriminate.
  - rewrite !append_cons in H. discriminate.
  - rewrite !append_cons, !append_nil in H. injection H as H.
    apply decimal_prefix_unique in H as [Hid Hrest];
      try apply pretty_decimal;
      try (destruct season, season'; reflexivity).
    apply (inj pretty) in Hid as ->.
    destruct season as [s|], season' as [s'|];
      try reflexivity;
      rewrite ?append_cons, ?append_nil in Hrest; try discriminate.
    injection Hrest as Hrest.
    apply decimal_prefix_unique in Hrest as [Hs _];
      try apply pretty_decimal; try reflexivity.
    now apply (inj pretty) in Hs as ->.
Qed.

(** X16, for the stats of one player in two seasons. *)
Lemma requests_have_files_of_their_own_witness :
  _get_cache_path "cache" "stats" (params_of (StatsRequest 237 (Some 2022)))
  <> _get_cache_path "cache" "stats" (params_of (StatsRequest 237 (Some 2023))).
Proof.
  apply (requests_have_files_of_their_own "cache"
           (StatsRequest 237 (Some 2022)) (StatsRequest 237 (Some 2023))).
  discriminate.
Defined.

(** X17, for the parameters of a stats request put in the other
    order. *)
Lemma cache_path_ignores_insertion_order_witness :
  _get_cache_path "cache" "stats"
    [("seasons[]"%string, IntValue 2023);
     ("player_ids[]"%string, IntValue 237)]
  = _get_cache_path "cache" "stats"
      [("player_ids[]"%string, IntValue 237);
       ("seasons[]"%string, IntValue 2023)]
  /\ _get_cache_path "cache" "stats"
       [("seasons[]"%string, IntValue 2023);
        ("player_ids[]"%string, IntValue 237)]
     = "cache/stats_player_ids[]_237_seasons[]_2023.json"%string.
Proof.
  split; [|vm_compute; reflexivity].
  apply cache_path_ignores_insertion_order.
  - apply (bool_decide_unpack _). vm_compute. exact I.
  - apply Permutation_swap.
Defined.

(** X18. Two searches by first and last name that differ can share a
    file of the cache: the name of the file joins the names with the
    text [_last_name_], which a name may hold itself. *)
Theorem names_can_share_a_file (cache_dir a b c : string) :
  Search.ByName (a +:+ "_last_name_" +:+ b) c
  <> Search.ByName a (b +:+ "_last_name_" +:+ c)
  /\ _get_cache_path cache_dir "players"
       (search_params_of (Search.ByName (a +:+ "_last_name_" +:+ b) c))
     = _get_cache_path cache_dir "players"
         (search_params_of (Search.ByName a (b +:+ "_last_name_" +:+ c))).
Proof.
  split.
  { intros [= H _].
    assert (a +:+ "_last_name_" +:+ b = a +:+ "") as H'
      by now rewrite append_nil_r.
    apply (inj (String.app a)) in H'. rewrite !append_cons in H'.
    discriminate. }
  unfold _get_cache_path. f_equal.
  unfold filename, search_params_of, param_str.
  change (sorted_items
            [("first_name"%string, StrValue (a +:+ "_last_name_" +:+ b));
             ("last_name"%string, StrValue c)])
    with [("first_name"%string, StrValue (a +:+ "_last_name_" +:+ b));
          ("last_name"%string, StrValue c)].
  change (sorted_items
            [("first_name"%string, StrValue a);
             ("last_name"%string, StrValue (b +:+ "_last_name_" +:+ c))])
    with [("first_name"%string, StrValue a);
          ("last_name"%string, StrValue (b +:+ "_last_name_" +:+ c))].
  cbn [map fst snd str_of join_underscore].
  rewrite !append_assoc. reflexivity.
Qed.

End CacheFacts.

(** ** The shape of the result *)

Module ShapeFacts.
Import Py Aggregator Growth.

Lemma add_stat_dom key game totals totals' k :
  add_stat key game totals = Ok totals' ->
  is_Some (totals' !! k) -> is_Some (totals !! k) \/ k = key.
Proof.
  rewrite AggregatorFacts.add_stat_contribution.
  destruct (contribution key game) as [[x|]|e]; cbn [rbind];
    intros [= <-]; [|auto].
  unfold add_to. rewrite lookup_insert_is_Some. intros [<-|[_ H]]; auto.
Qed.

Lemma game_loop_dom keys game k : forall totals totals' valid_game,
  game_loop keys game totals = Ok (totals', valid_game) ->
  is_Some (totals' !! k) ->
  is_Some (totals !! k) \/ (k ∈ keys /\ k <> "games_played"%string).
Proof.
  induction keys as [|key rest IH]; intros totals totals' valid_game;
    cbn [game_loop].
  - intros [= <- _]. auto.
  - destruct (String.eqb_spec key "games_played") as [->|Hne].
    { intros H Hk. destruct (IH _ _ _ H Hk) as [|[Hin Hgp]]; [auto|].
      right. split; [now apply list_elem_of_further|assumption]. }
    destruct (add_stat key game totals) as [t|e] eqn:A.
    + intros H Hk. destruct (IH _ _ _ H Hk) as [Ht|[Hin Hgp]].
      * destruct (add_stat_dom _ _ _ _ _ A Ht) as [?| ->]; [auto|].
        right. split; [apply list_elem_of_here|assumption].
      * right. split; [now apply list_elem_of_further|assumption].
    + destruct (is_parse_error e); [|discriminate]. intros [= <- _]. auto.
Qed.

Lemma stats_loop_dom stats k : forall totals n totals' n',
  stats_loop stats totals n = Ok (totals', n') ->
  is_Some (totals' !! k) ->
  is_Some (totals !! k) \/ (k ∈ totals_keys /\ k <> "games_played"%string).
Proof.
  induction stats as [|game rest IH]; intros totals n totals' n';
    cbn [stats_loop].
  - intros [= <- _]. auto.
  - destruct (game_loop totals_keys (stat_fields game) totals)
      as [[t valid_game]|e] eqn:G; cbn [rbind]; [|discriminate].
    intros H Hk. destruct (IH _ _ _ _ H Hk) as [Ht|]; [|auto].
    apply (game_loop_dom _ _ _ _ _ _ G Ht).
Qed.

Lemma ten_keys (k : string) :
  is_Some (initial_totals !! k)
  \/ (k ∈ totals_keys /\ k <> "games_played"%string) ->
  k ∈ numeric_keys \/ k = "min"%string.
Proof.
  assert (k ∈ totals_keys -> k <> "games_played"%string ->
          k ∈ numeric_keys \/ k = "min"%string) as Hkeys.
  { unfold totals_keys, numeric_keys.
    rewrite !elem_of_cons, !elem_of_nil. intuition. }
  intros [H|[H Hne]]; [|auto].
  destruct (decide (k ∈ totals_keys)) as [Hin|Hout].
  - apply Hkeys; [assumption|]. intros ->.
    vm_compute in H. destruct H as [x H]. discriminate.
  - exfalso. unfold initial_totals in H.
    rewrite (not_elem_of_list_to_map_1 _ k) in H; [now destruct H|].
    rewrite <- list_fmap_compose. cbn [compose fst].
    rewrite list_fmap_id. intros [_ Hk]%list_elem_of_filter. contradiction.
Qed.

(** The averages hold no key besides the ten. *)
Lemma averages_keys_among_ten stats a k :
  season_average stats = Ok (Some a) ->
  is_Some (avg a !! k) -> k ∈ numeric_keys \/ k = "min"%string.
Proof.
  intros H.
  unfold season_average in H. destruct stats as [|g rest]; [discriminate|].
  change (Nat.eqb (length (g :: rest)) 0) with false in H. cbv iota in H.
  destruct (stats_loop (g :: rest) initial_totals 0)
    as [[totals n]|e] eqn:L; cbn [rbind] in H; [|discriminate].
  destruct (0 <? n)%nat; [|discriminate].
  injection H as <-. unfold averages_of. cbn [avg].
  rewrite lookup_fmap, fmap_is_Some. intros Hk.
  apply ten_keys. apply (stats_loop_dom _ _ _ _ _ _ L Hk).
Qed.

Lemma averages_count_records stats a :
  season_average stats = Ok (Some a) ->
  games_played a = length stats /\ stats <> [].
Proof.
  intros H.
  unfold season_average in H. destruct stats as [|g rest]; [discriminate|].
  change (Nat.eqb (length (g :: rest)) 0) with false in H. cbv iota in H.
  destruct (stats_loop (g :: rest) initial_totals 0)
    as [[totals n]|e]; cbn [rbind] in H; [|discriminate].
  destruct (0 <? n)%nat; [|discriminate].
  injection H as <-. split; [reflexivity|discriminate].
Qed.

(** X3. The averages of a season hold a value under each of the ten
    keys pts, reb, ast, stl, blk, turnover, fg_pct, fg3_pct, ft_pct and
    min and under no other key, whatever fields the records have, and
    their [games_played] is the number of the records, which is not
    zero. *)
Theorem averages_have_ten_keys (stats : list stat_record) (a : averages) :
  season_average stats = Ok (Some a) ->
  (forall k, is_Some (avg a !! k) <-> k ∈ numeric_keys \/ k = "min"%string)
  /\ games_played a = length stats /\ stats <> [].
Proof.
  intros H. split; [|exact (averages_count_records stats a H)].
  intros k. split.
  - exact (averages_keys_among_ten stats a k H).
  - exact (AggregatorFacts.season_average_entries stats a k H).
Qed.

(** X3, for the two sample records. *)
Lemma averages_have_ten_keys_witness :
  exists a,
    season_average [Samples.full_game; Samples.bad_minutes_game]
    = Ok (Some a)
    /\ (forall k, is_Some (avg a !! k)
                  <-> k ∈ numeric_keys \/ k = "min"%string)
    /\ games_played a = 2%nat.
Proof.
  eexists. split; [vm_compute; reflexivity|].
  destruct (averages_have_ten_keys
              [Samples.full_game; Samples.bad_minutes_game] _
              ltac:(vm_compute; reflexivity)) as (Hkeys & Hgames & _).
  split; [exact Hkeys|exact Hgames].
Defined.

(** Every entry of the growth is the growth of two averages. *)
Lemma growth_loop_entries seasons raw (turns : list nat) : forall growth,
  (forall key entry, growth !! key = Some entry ->
     exists ps cs, entry = season_growth ps cs) ->
  forall key entry,
    foldl (growth_step seasons raw) growth turns !! key = Some entry ->
    exists ps cs, entry = season_growth ps cs.
Proof.
  induction turns as [|i rest IH]; intros growth Hgrowth; cbn [foldl];
    [exact Hgrowth|].
  apply IH. intros key entry. rewrite GrowthFacts.growth_step_entry.
  destruct (entry_at seasons raw i) as [[key' entry']|] eqn:E;
    [|apply Hgrowth].
  destruct (decide (key' = key)) as [->|Hne].
  - rewrite lookup_insert_eq. intros [= <-].
    apply GrowthFacts.entry_at_inv in E
      as (p & c & ps & cs & _ & _ & _ & _ & _ & ->).
    eauto.
  - rewrite lookup_insert_ne by assumption. apply Hgrowth.
Qed.

Lemma season_growth_keys ps cs metric :
  is_Some (season_growth ps cs !! metric) <-> metric ∈ key_metrics.
Proof.
  unfold season_growth.
  rewrite (GrowthFacts.lookup_foldl_insert
             (metric_growth (avg ps) (avg cs))).
  destruct (decide (metric ∈ key_metrics)) as [Hin|Hout].
  - split; eauto.
  - rewrite lookup_empty. split; [intros [x Hx]; discriminate|tauto].
Qed.

Section Shape.

Variable players_endpoint : world -> Z -> response (gmap string pyval).
Variable stats_endpoint : world -> Z -> option Z -> response (list stat_record).
Variable current_year : Z.

(** The averages stored by the loop over the seasons are averages of
    the aggregation. *)
Lemma averages_loop_aggregates player_id seasons :
  forall raw w raw' w',
  Client.averages_loop stats_endpoint current_year player_id seasons raw w
  = (Ok raw', w') ->
  forall s a, raw' !! s = Some (Some a) ->
    raw !! s = Some (Some a)
    \/ exists stats, season_average stats = Ok (Some a).
Proof.
  induction seasons as [|s0 rest IH]; intros raw w raw' w' H s a;
    cbn [Client.averages_loop] in H.
  - cbv [ret] in H. injection H as <- _. auto.
  - unfold bind in H.
    destruct (Client.get_player_stats _ _ _ _ w) as [[stats|e] w1];
      [|discriminate].
    unfold lift in H.
    destruct (season_average stats) as [entry|e] eqn:S; [|discriminate].
    intros Hs. destruct (IH _ _ _ _ H s a Hs) as [Hraw|]; [|auto].
    destruct (decide (s0 = s)) as [->|Hne].
    + rewrite lookup_insert_eq in Hraw. injection Hraw as ->. eauto.
    + rewrite lookup_insert_ne in Hraw by assumption. auto.
Qed.

(** X11. In a comparison that returns, the averages of a season, when
    they are not [None], hold exactly the ten keys of the aggregation
    and a [games_played] that is not zero, and every entry of the growth
    holds exactly the eight metrics. *)
Theorem comparison_shape
    (player_id : Z) (seasons : list Z) (w : world) (r : Client.comparison)
    (w' : world) :
  Client.compare_player_seasons players_endpoint stats_endpoint current_year
    player_id seasons w = (Ok r, w') ->
  (forall key a,
     Client.season_averages r !! key = Some (Some a) ->
     (forall k, is_Some (avg a !! k)
                <-> k ∈ numeric_keys \/ k = "min"%string)
     /\ (0 < games_played a)%nat)
  /\ (forall key entry,
        Client.growth r !! key = Some entry ->
        forall metric, is_Some (entry !! metric) <-> metric ∈ key_metrics).
Proof.
  intros H.
  apply ClientFacts.compare_returns_inv in H
    as (player & raw & w1 & _ & Hloop & _ & -> & ->).
  split.
  - intros key a Hkey.
    apply (lookup_kmap_Some (pretty : Z -> string)) in Hkey
      as (s & _ & Hs).
    destruct (averages_loop_aggregates _ _ _ _ _ _ Hloop s a Hs)
      as [Hempty|[stats Hstats]].
    { rewrite lookup_empty in Hempty. discriminate. }
    destruct (averages_count_records stats a Hstats) as (Hgames & Hne).
    split.
    + intros k. split.
      * exact (averages_keys_among_ten stats a k Hstats).
      * exact (AggregatorFacts.season_average_entries stats a k Hstats).
    + rewrite Hgames. destruct stats; [contradiction|cbn [length]; lia].
  - intros key entry Hentry metric. unfold compute_growth in Hentry.
    apply growth_loop_entries in Hentry as (ps & cs & ->).
    + apply season_growth_keys.
    + intros k e. rewrite lookup_empty. discriminate.
Qed.

End Shape.

(** X11, for the seasons 2021 to 2023 of the sample endpoints. *)
Lemma comparison_shape_witness :
  exists r w',
    Client.compare_player_seasons Samples.any_player Samples.nothing_in_2022
      2025 1 Samples.three_seasons [] = (Ok r, w')
    /\ forall key entry,
         Client.growth r !! key = Some entry ->
         forall metric, is_Some (entry !! metric) <-> metric ∈ key_metrics.
Proof.
  destruct (Client.compare_player_seasons Samples.any_player
              Samples.nothing_in_2022 2025 1 Samples.three_seasons [])
    as [[r|e] w'] eqn:H.
  - exists r, w'. split; [reflexivity|].
    exact (proj2 (comparison_shape _ _ _ _ _ _ _ _ H)).
  - vm_compute in H. discriminate.
Defined.

End ShapeFacts.

(** ** The handlers of the players endpoints *)

Module PlayersEndpointsFacts.
Import Py Endpoints PlayersEndpoints.

Section Players.

Variable players_endpoint : world -> Z -> response (gmap string pyval).
Variable stats_endpoint : world -> Z -> option Z -> response (list stat_record).
Variable current_year : Z.
Variables player_model stat_model full_model : Type.
Variable Player : gmap string pyval -> option player_model.
Variable PlayerStat : stat_record -> option Z -> option stat_model.
Variable PlayerWithStats :
  player_model -> option stat_model -> option full_model.

Local Abbreviation player_handler :=
  (get_player players_endpoint player_model Player).
Local Abbreviation stats_handler :=
  (get_player_stats players_endpoint stats_endpoint current_year
     player_model stat_model full_model Player PlayerStat PlayerWithStats).

Lemma found_player_has_data player_id w player w' :
  Client.get_player players_endpoint player_id w = (Ok player, w') ->
  player <> ∅ /\ w' = w ++ [PlayerRequest player_id].
Proof.
  intros H.
  pose proof (CallsFacts.get_player_logged players_endpoint player_id w)
    as Hlog.
  rewrite H in Hlog. cbn [snd] in Hlog.
  rewrite CallsFacts.get_player_unfold in H.
  destruct (player_id <=? 0); [discriminate|]. split; [|assumption].
  destruct (Client._request _ _ w) as [[player_data|e] w1]; [|discriminate].
  destruct (bool_decide (player_data = ∅)) eqn:D; [discriminate|].
  injection H as <- _. now apply bool_decide_eq_false in D.
Qed.

(** X19. The handlers of a player and of the stats of a player never
    raise the [HTTPException] with the status 404 they hold, nor any
    other: the client returns no empty data for a player, and what it
    raises, [PlayerNotFoundError] for an unknown player included, leaves
    the handlers as it is.  The handler of the stats makes the request
    for the player and then, if that one returns, at most the one for
    the stats. *)
Theorem players_handlers_raise_no_http_exception
    (player_id : Z) (season : option Z) (w : world) :
  player_handler player_id w
  = match Client.get_player players_endpoint player_id w with
    | (Ok player, w') => construct (Player player) w'
    | (Raise e, w') => (Raises (ClientError e), w')
    end
  /\ match fst (stats_handler player_id season w) with
     | Returns _ => True
     | Raises e => is_http_exception e = false
     end
  /\ exists k,
       snd (stats_handler player_id season w)
       = w ++ take k [PlayerRequest player_id;
                      StatsRequest player_id season].
Proof.
  unfold get_player, get_player_stats, then_do, call.
  destruct (Client.get_player players_endpoint player_id w)
    as [[player|e] w1] eqn:G.
  2: { split; [reflexivity|]. split; [reflexivity|].
       pose proof (CallsFacts.get_player_logged players_endpoint
                     player_id w) as Hlog.
       rewrite G in Hlog. cbn [snd] in *. rewrite Hlog.
       destruct (player_id <=? 0).
       - exists 0%nat. cbn. now rewrite app_nil_r.
       - exists 1%nat. reflexivity. }
  destruct (found_player_has_data _ _ _ _ G) as [Hdata ->].
  rewrite bool_decide_eq_false_2 by assumption.
  split; [reflexivity|].
  pose proof (CallsFacts.get_player_stats_logged stats_endpoint current_year
                player_id season (w ++ [PlayerRequest player_id])) as Hlog.
  assert (exists k,
            snd (Client.get_player_stats stats_endpoint current_year
                   player_id season (w ++ [PlayerRequest player_id]))
            = w ++ take k [PlayerRequest player_id;
                           StatsRequest player_id season]) as [k Hk].
  { rewrite Hlog. destruct (Calls.stats_input_ok _ _ _).
    - exists 2%nat. now rewrite <- app_assoc.
    - exists 1%nat. reflexivity. }
  clear Hlog.
  destruct (Client.get_player_stats _ _ _ _ _) as [[stats|e] w2];
    cbn [snd] in Hk; subst w2.
  2: { split; [reflexivity|]. now exists k. }
  destruct stats as [|stat_data rest].
  - destruct (Player player) as [model|]; cbn [construct].
    + destruct (PlayerWithStats model None); cbn; eauto.
    + cbn. eauto.
  - destruct (PlayerStat stat_data season) as [player_stat|];
      cbn [construct]; [|cbn; eauto].
    destruct (Player player) as [model|]; cbn [construct]; [|cbn; eauto].
    destruct (PlayerWithStats model (Some player_stat)); cbn; eauto.
Qed.

End Players.

End PlayersEndpointsFacts.
